(** * webar-volumetric: the chroma-key fragment shader and the page's
      event handlers, embedded from [src/app.js].

    The GLSL fragment shader [chromaKeyFragmentShader] is embedded over the
    real numbers: every GLSL [float] is an [R] and the arithmetic is exact.
    The operations whose result GLSL leaves undefined (division by zero,
    [pow] of a negative base, [pow] of zero with a non-positive exponent)
    return [None], so that "the shader produces a value" is a statement of
    its own.

    The page itself (module [App]) is embedded as a step function over the
    module-level variables of [app.js]; every [await] splits a handler into
    the part that runs at the click and the part that runs when the promise
    settles.  The call [animate()] that ends [init] is the first
    [AnimationFrame] event of a run.

    The canvas routines (module [Canvas]) are embedded as the lists of
    calls they make on the 2D context.  The video variant of the page
    inlines the same shader; its handlers are a step function of their own
    (module [VideoPage]). *)

From Stdlib Require Import Reals Lra Lia List Bool Arith NArith String Ascii.
From Stdlib Require Import DecimalString DecimalNat.
From coqutil Require Import Datatypes.RecordSettersUsingExistingGetters.
Import ListNotations.

Module Shader.

Local Open Scope R_scope.

(** ** GLSL vectors *)

Record vec2 := mkvec2 { vx : R; vy : R }.
Record vec3 := mkvec3 { r : R; g : R; b : R }.
Record vec4 := mkvec4 { rgb : vec3; a : R }.

(** [vec3(desat)]: the scalar repeated in the three channels. *)
Definition vec3_of (s : R) : vec3 := mkvec3 s s s.

(** ** GLSL built-ins *)

(** [distance(p0, p1) = length(p0 - p1)]. *)
Definition distance (p0 p1 : vec2) : R :=
  sqrt ((vx p0 - vx p1) * (vx p0 - vx p1) + (vy p0 - vy p1) * (vy p0 - vy p1)).

(** [clamp(x, minVal, maxVal) = min(max(x, minVal), maxVal)]. *)
Definition clamp (x minVal maxVal : R) : R := Rmin (Rmax x minVal) maxVal.

(** [x / y]; undefined when the divisor is zero. *)
Definition fdiv (x y : R) : option R :=
  if Req_dec_T y 0 then None else Some (x / y).

(** [pow(x, y)]; undefined if [x < 0], and if [x = 0] and [y <= 0]. *)
Definition glsl_pow (x y : R) : option R :=
  if Rlt_dec x 0 then None
  else if Req_dec_T x 0 then (if Rle_dec y 0 then None else Some 0)
  else Some (Rpower x y).

(** [mix(x, y, a) = x * (1 - a) + y * a], component-wise. *)
Definition mix (x y : vec3) (t : R) : vec3 :=
  mkvec3 (r x * (1 - t) + r y * t)
         (g x * (1 - t) + g y * t)
         (b x * (1 - t) + b y * t).

Definition bind {A B : Type} (m : option A) (k : A -> option B) : option B :=
  match m with
  | Some x => k x
  | None => None
  end.

Notation "x <- m ;; k" := (bind m (fun x => k))
  (at level 61, m at next level, right associativity).

(** ** The shader *)

(** The uniforms other than the sampler; the sampled texel is the argument
    of [main]. *)
Record Uniforms := mkUniforms {
  keyColor : vec3;
  similarity : R;
  smoothness : R;
  spill : R
}.

Definition RGBtoUV (c : vec3) : vec2 :=
  mkvec2 (r c * -0.169 + g c * -0.331 + b c * 0.5 + 0.5)
         (r c * 0.5 + g c * -0.419 + b c * -0.081 + 0.5).

(** [gl_FragColor]: the colour and the alpha are computed from different
    quotients, so each is defined or not on its own. *)
Record FragColor := mkFragColor {
  out_rgb : option vec3;
  out_a : option R
}.

(** [main], with [rgba = texture2D(tex, vUv)] passed in. *)
Definition main (u : Uniforms) (rgba : vec4) : FragColor :=
  let chromaDist := distance (RGBtoUV (rgb rgba)) (RGBtoUV (keyColor u)) in
  let baseMask := chromaDist - similarity u in
  let fullMask :=
    q <- fdiv baseMask (smoothness u) ;; glsl_pow (clamp q 0 1) 1.5 in
  let spillVal :=
    q <- fdiv baseMask (spill u) ;; glsl_pow (clamp q 0 1) 1.5 in
  let desat :=
    clamp (r (rgb rgba) * 0.2126 + g (rgb rgba) * 0.7152
           + b (rgb rgba) * 0.0722) 0 1 in
  mkFragColor
    (s <- spillVal ;; Some (mix (vec3_of desat) (rgb rgba) s))
    fullMask.

(** The two locals of [main] the specification names. *)
Definition chromaDistance (u : Uniforms) (rgba : vec4) : R :=
  distance (RGBtoUV (rgb rgba)) (RGBtoUV (keyColor u)).

Definition baseMask (u : Uniforms) (rgba : vec4) : R :=
  chromaDistance u rgba - similarity u.

(** The lines of [main] from [baseMask] to [fullMask], as a function of
    the chroma distance [d]. *)
Definition alpha_at (u : Uniforms) (d : R) : option R :=
  let baseMask := d - similarity u in
  q <- fdiv baseMask (smoothness u) ;; glsl_pow (clamp q 0 1) 1.5.

(** ** The classifier in the words of the specification (section 4.1)

    Written from the seven steps of the specification, not from the GLSL:
    the clamp by cases, the power 1.5 as [x * sqrt x], the blend as the
    gray moved towards the original colour by the blend factor. *)

Definition spec_clamp01 (x : R) : R :=
  if Rlt_dec x 0 then 0 else if Rlt_dec 1 x then 1 else x.

Definition spec_pow15 (x : R) : R := x * sqrt x.

Definition spec_U (c : vec3) : R := r c * (-0.169) + g c * (-0.331) + b c * 0.5 + 0.5.
Definition spec_V (c : vec3) : R := r c * 0.5 + g c * (-0.419) + b c * (-0.081) + 0.5.

Definition spec_chromaDistance (u : Uniforms) (c : vec3) : R :=
  sqrt (Rsqr (spec_U c - spec_U (keyColor u))
        + Rsqr (spec_V c - spec_V (keyColor u))).

Definition spec_baseMask (u : Uniforms) (c : vec3) : R :=
  spec_chromaDistance u c - similarity u.

Definition spec_alpha (u : Uniforms) (c : vec3) : R :=
  spec_pow15 (spec_clamp01 (spec_baseMask u c / smoothness u)).

Definition spec_spillFactor (u : Uniforms) (c : vec3) : R :=
  spec_pow15 (spec_clamp01 (spec_baseMask u c / spill u)).

Definition spec_desaturatedLuma (c : vec3) : R :=
  spec_clamp01 (0.2126 * r c + 0.7152 * g c + 0.0722 * b c).

(** Blend factor 0 gives the gray, 1 the original channel. *)
Definition spec_blend (gray original factor : R) : R :=
  gray + factor * (original - gray).

Definition spec_color (u : Uniforms) (c : vec3) : vec3 :=
  let y := spec_desaturatedLuma c in
  let f := spec_spillFactor u c in
  mkvec3 (spec_blend y (r c) f) (spec_blend y (g c) f) (spec_blend y (b c) f).

(** ** Vocabulary for further properties of the shader *)

(** The weighted sum [main] clamps into [desat]. *)
Definition luma (c : vec3) : R := r c * 0.2126 + g c * 0.7152 + b c * 0.0722.

(** The colour with [k] added to each channel. *)
Definition add_gray (c : vec3) (k : R) : vec3 :=
  mkvec3 (r c + k) (g c + k) (b c + k).

Definition in_unit (c : vec3) : Prop :=
  0 <= r c <= 1 /\ 0 <= g c <= 1 /\ 0 <= b c <= 1.

(** ** Sample inputs *)

Definition green : vec4 := mkvec4 (mkvec3 0 1 0) 1.
Definition red : vec4 := mkvec4 (mkvec3 1 0 0) 1.

(** A mid-gray, half-transparent texel. *)
Definition gray : vec4 := mkvec4 (mkvec3 0.5 0.5 0.5) 0.5.

(** The uniforms [init] sets in [app.js]. *)
Definition app_uniforms : Uniforms := mkUniforms (mkvec3 0 1 0) 0.3 0.1 0.15.


End Shader.

Module App.

Local Open Scope string_scope.

(** ** Objects the handlers pass around *)

(** An image decoded by [THREE.TextureLoader]; only its identity matters. *)
Definition Image := nat.

(** A camera track, and a [MediaStream] as the list [getTracks()] returns. *)
Definition Track := nat.
Definition MediaStream := list Track.

(** The [draw] member of a [DEMOS] entry: one of the three canvas routines,
    or the closure [(ctx, w, h, t) => ctx.drawImage(tex.image, 0, 0, w, h)]
    an AI scene adds. *)
Inductive DrawFn :=
| drawRobot
| drawLogo
| drawParticles
| drawImage (img : Image).

Record Demo := mkDemo { name : string; draw : DrawFn }.

(** What a canvas holds: nothing yet, the result of a draw routine called
    at elapsed time [t], or an image drawn once. *)
Inductive Picture :=
| Blank
| Painted (d : DrawFn) (t : R)
| Still (img : Image).

(** The two kinds of [THREE.CanvasTexture] the page creates: the one over
    [sourceCanvas] made in [init], and one per loaded AI image over a fresh
    [aiCanvas]. *)
Inductive Texture :=
| CanvasTexture_source
| CanvasTexture_ai (img : Image).

(** [videoMesh.material]: the chroma-key [ShaderMaterial] (which samples
    [material.uniforms.tex.value]) or a [MeshBasicMaterial] whose [map] was
    fixed when it was created. *)
Inductive MeshMaterial :=
| material
| MeshBasicMaterial (map : Texture).

(** The request [loader.load(url, ...)] sends.  The URL is kept as the text
    that goes through [encodeURIComponent] and the [seed] query parameter;
    width, height and model are constants of the template. *)
Record Request := mkRequest { req_prompt : string; req_seed : nat }.

(** A suspended [ai-generate] handler: what the continuation after
    [await new Promise(...)] has captured. *)
Record AiTask := mkAiTask { customPrompt : option string; url : Request }.

(** ** The state *)

Record State := mkState {
  (* module-level variables *)
  DEMOS : list Demo;
  currentDemo : option nat;          (* a JS number; [None] is [NaN] *)
  aiImageLoading : bool;
  aiPromptIndex : nat;
  chromaKeyEnabled : bool;
  animationFrame : nat;
  sourceTexture : Texture;
  (* the scene *)
  uniforms_tex : Texture;            (* material.uniforms.tex.value *)
  uniforms_similarity : option R;    (* [None] is [NaN] *)
  uniforms_smoothness : option R;
  videoMesh_material : MeshMaterial;
  preview_map : Texture;             (* previewMesh.material.map *)
  grid_visible : bool;
  clearColor : N * N;                (* renderer.setClearColor(color, alpha) *)
  sourceCanvas : Picture;
  source_gpu : Picture;              (* the uploaded copy of the texture over
                                        [sourceCanvas] *)
  (* the document *)
  demo_name : option string;         (* #demo-name textContent, once written *)
  toggle_chroma_text : option string;
  ai_generate_text : option string;
  ai_generate_opacity : option string;
  ar_camera_active : bool;           (* btn.dataset.active === 'true' *)
  ar_camera_text : option string;
  ar_camera_class_active : bool;
  ar_videos : list MediaStream;      (* the #ar-video elements, document order *)
  toast_text : option string;        (* #vol-toast, once created *)
  toast_opacity : option string;
  toast_timer : bool;                (* toast._timer is pending *)
  window_arStream : option MediaStream;
  (* the host: promises not settled yet, and the devices *)
  pending_loads : list AiTask;       (* loader.load calls in flight *)
  issued : list Request;             (* every request sent so far *)
  pending_getUserMedia : nat;
  pending_play : nat;
  live_tracks : list Track           (* tracks capturing from the camera *)
}.

Definition AI_SCENE_PROMPTS : list string :=
  [ "holographic dancer performing in neon lights dark stage";
    "floating crystal orb with swirling energy inside dark void";
    "ethereal ghost figure glowing translucent on dark background";
    "robot DJ with turntables neon cyberpunk stage dark background";
    "phoenix bird made of fire rising dark background";
    "astronaut floating in space with stars and nebula";
    "samurai warrior with glowing sword dark misty background";
    "dragon breathing colorful fire dark fantasy background" ].

(** The state [init] leaves behind, before any event. *)
Definition initial : State :=
  {| DEMOS := [ mkDemo "Dancing Robot" drawRobot;
                mkDemo "Spinning Logo" drawLogo;
                mkDemo "Particle Storm" drawParticles ];
     currentDemo := Some 0;
     aiImageLoading := false;
     aiPromptIndex := 0;
     chromaKeyEnabled := true;
     animationFrame := 0;
     sourceTexture := CanvasTexture_source;
     uniforms_tex := CanvasTexture_source;
     uniforms_similarity := Some 0.3%R;
     uniforms_smoothness := Some 0.1%R;
     videoMesh_material := material;
     preview_map := CanvasTexture_source;
     grid_visible := true;
     clearColor := (0%N, 0%N);
     sourceCanvas := Blank;
     source_gpu := Blank;
     demo_name := None;
     toggle_chroma_text := None;
     ai_generate_text := None;
     ai_generate_opacity := None;
     ar_camera_active := false;
     ar_camera_text := None;
     ar_camera_class_active := false;
     ar_videos := [];
     toast_text := None;
     toast_opacity := None;
     toast_timer := false;
     window_arStream := None;
     pending_loads := [];
     issued := [];
     pending_getUserMedia := 0;
     pending_play := 0;
     live_tracks := [] |}.

(** ** Helpers for JS values *)

(** [a % b] on non-negative numbers; [NaN] when [b] is zero. *)
Definition js_mod (a b : nat) : option nat :=
  if Nat.eqb b 0 then None else Some (a mod b).

(** [x || y] for a string-or-null [x]: the empty string is falsy too. *)
Definition or_else (x : option string) (y : string) : string :=
  match x with
  | Some s => if String.eqb s "" then y else s
  | None => y
  end.

(** [x || null]. *)
Definition or_null (x : option string) : option string :=
  match x with
  | Some s => if String.eqb s "" then None else Some s
  | None => None
  end.

(** The list without its [k]-th element. *)
Fixpoint remove_nth {A : Type} (k : nat) (l : list A) : list A :=
  match l, k with
  | [], _ => []
  | _ :: l', O => l'
  | x :: l', S k' => x :: remove_nth k' l'
  end.

(** [tracks.forEach((t) => t.stop())] seen from the device: the stopped
    tracks no longer capture. *)
Definition stop_tracks (stream : MediaStream) (live : list Track) : list Track :=
  filter (fun t => negb (existsb (Nat.eqb t) stream)) live.

(** ** Functions of [app.js] *)

(** [generateAIScene(customPrompt)]: the request to send and the state with
    [aiPromptIndex] incremented.  [now] is [Date.now()].  Prompts are
    well-formed text, on which [encodeURIComponent] does not throw. *)
Definition generateAIScene (customPrompt : option string) (now : nat)
    (s : State) : Request * State :=
  let prompt :=
    or_else customPrompt
      (nth (aiPromptIndex s mod List.length AI_SCENE_PROMPTS)
           AI_SCENE_PROMPTS "") in
  let s := { s with aiPromptIndex ::= S } in
  (mkRequest
     (prompt ++ ", centered subject, green screen background, chroma key ready, high contrast")
     now,
   s).

(** [showToast(msg)]: the toast shows [msg] and one timer is left pending. *)
Definition showToast (msg : string) (s : State) : State :=
  { s with toast_text := Some msg; toast_opacity := Some "1"; toast_timer := true }.

(** The callback [showToast] gave to [setTimeout]. *)
Definition toast_timeout (s : State) : State :=
  if toast_timer s
  then { s with toast_opacity := Some "0"; toast_timer := false }
  else s.

(** [toggle-chroma] [onclick]. *)
Definition toggle_chroma_onclick (s : State) : State :=
  let s := { s with chromaKeyEnabled ::= negb } in
  if chromaKeyEnabled s
  then { s with videoMesh_material := material;
           toggle_chroma_text := Some "ChromaKey: ON" }
  else { s with videoMesh_material := MeshBasicMaterial (sourceTexture s);
           toggle_chroma_text := Some "ChromaKey: OFF" }.

(** [DEMOS[currentDemo]]; [None] is [undefined]. *)
Definition DEMOS_at (s : State) : option Demo :=
  match currentDemo s with
  | Some i => nth_error (DEMOS s) i
  | None => None
  end.

(** [document.getElementById('demo-name').textContent =
    DEMOS[currentDemo].name]; reading [.name] of [undefined] throws and
    leaves the label as it was. *)
Definition show_demo_name (s : State) : State :=
  match DEMOS_at s with
  | Some d => { s with demo_name := Some (name d) }
  | None => s
  end.

(** [next-demo] [onclick]. *)
Definition next_demo_onclick (s : State) : State :=
  let s := { s with currentDemo :=
                 match currentDemo s with
                 | Some c => js_mod (c + 1) (List.length (DEMOS s))
                 | None => None
                 end } in
  show_demo_name s.

(** [similarity] and [smoothness] [oninput]; [v] is [parseFloat] of the
    field. *)
Definition similarity_oninput (v : option R) (s : State) : State :=
  { s with uniforms_similarity := v }.

Definition smoothness_oninput (v : option R) (s : State) : State :=
  { s with uniforms_smoothness := v }.

(** The [finally] block of the [ai-generate] handler. *)
Definition ai_generate_finally (s : State) : State :=
  { s with aiImageLoading := false;
      ai_generate_text := Some "🤖 AI Generate";
      ai_generate_opacity := Some "1" }.

(** [ai-generate] [onclick] up to the [await]: [value] is
    [promptInput?.value?.trim()] ([None] when undefined), [now] is
    [Date.now()]. *)
Definition ai_generate_onclick (value : option string) (now : nat)
    (s : State) : State :=
  if aiImageLoading s then s
  else
    let s := { s with aiImageLoading := true;
                 ai_generate_text := Some "Generating...";
                 ai_generate_opacity := Some "0.5" } in
    let customPrompt := or_null value in
    let (url, s) := generateAIScene customPrompt now s in
    { s with issued ::= (fun l => (l ++ [url])%list);
        pending_loads ::= (fun l => (l ++ [mkAiTask customPrompt url])%list) }.

(** The name of the demo an AI scene adds:
    ['AI: ' + (customPrompt || AI_SCENE_PROMPTS[(aiPromptIndex - 1) %
    AI_SCENE_PROMPTS.length]).substring(0, 25)].  [aiPromptIndex] is at
    least 1 here, [generateAIScene] having run.  [substring] counts bytes
    where JS counts UTF-16 units; they agree on ASCII prompts. *)
Definition ai_demo_name (customPrompt : option string) (s : State) : string :=
  "AI: " ++ substring 0 25
    (or_else customPrompt
       (nth ((aiPromptIndex s - 1) mod List.length AI_SCENE_PROMPTS)
            AI_SCENE_PROMPTS "")).

(** The rest of the [try] block, run when [loader.load] calls [resolve]
    for the [k]-th load in flight; [img] is [tex.image]. *)
Definition ai_generate_resolved (k : nat) (img : Image) (s : State) : State :=
  match nth_error (pending_loads s) k with
  | None => s
  | Some task =>
    let s := { s with pending_loads ::= remove_nth k } in
    let aiTexture := CanvasTexture_ai img in
    let s := { s with uniforms_tex := aiTexture; preview_map := aiTexture } in
    let s := { s with DEMOS ::= (fun l =>
      (l ++ [ mkDemo (ai_demo_name (customPrompt task) s) (drawImage img) ])%list) } in
    let s := { s with currentDemo := Some (List.length (DEMOS s) - 1) } in
    let s := show_demo_name s in
    let s := { s with sourceTexture := aiTexture } in
    let s := showToast "AI scene loaded!" s in
    ai_generate_finally s
  end.

(** The [catch] block, run when [loader.load] calls [reject]. *)
Definition ai_generate_rejected (k : nat) (s : State) : State :=
  match nth_error (pending_loads s) k with
  | None => s
  | Some _ =>
    let s := { s with pending_loads ::= remove_nth k } in
    let s := showToast "AI generation failed — try again" s in
    ai_generate_finally s
  end.

(** [ar-camera] [onclick] up to the first [await].  The stop branch runs
    to its end; the start branch suspends at [getUserMedia]. *)
Definition ar_camera_onclick (s : State) : State :=
  if ar_camera_active s then
    let s := match window_arStream s with
             | Some stream =>
                 { s with live_tracks ::= stop_tracks stream;
                     window_arStream := None }
             | None => s
             end in
    (* getElementById finds the first #ar-video in document order *)
    let s := { s with ar_videos ::= @tl MediaStream } in
    let s := { s with clearColor := (0x08080f%N, 1%N);
                 grid_visible := true;
                 ar_camera_active := false;
                 ar_camera_text := Some "📷 AR Mode";
                 ar_camera_class_active := false } in
    showToast "AR mode off" s
  else
    { s with pending_getUserMedia ::= S }.

(** The start branch from [getUserMedia] resolving with [stream] (the
    camera captures on its tracks from then on) to [await vid.play()]. *)
Definition ar_camera_granted (stream : MediaStream) (s : State) : State :=
  match pending_getUserMedia s with
  | O => s
  | S n =>
    let s := { s with pending_getUserMedia := n;
                 live_tracks ::= (fun l => (l ++ stream)%list) } in
    { s with window_arStream := Some stream;
        ar_videos ::= cons stream;         (* insertBefore(vid, firstChild) *)
        pending_play ::= S }
  end.

(** The [catch] block when [getUserMedia] rejects. *)
Definition ar_camera_denied (s : State) : State :=
  match pending_getUserMedia s with
  | O => s
  | S n => showToast "Camera access denied" { s with pending_getUserMedia := n }
  end.

(** The start branch after [await vid.play()]. *)
Definition ar_camera_playing (s : State) : State :=
  match pending_play s with
  | O => s
  | S n =>
    let s := { s with pending_play := n;
                 clearColor := (0%N, 0%N);
                 grid_visible := false;
                 ar_camera_active := true;
                 ar_camera_text := Some "📱 3D View";
                 ar_camera_class_active := true } in
    showToast "AR Camera active — content overlays your view" s
  end.

(** The [catch] block when [vid.play()] rejects. *)
Definition ar_camera_play_failed (s : State) : State :=
  match pending_play s with
  | O => s
  | S n => showToast "Camera access denied" { s with pending_play := n }
  end.

(** What a draw routine leaves on the canvas.  The three routines repaint
    the whole canvas as a function of [t]; the AI closure draws its image
    over the whole canvas and ignores [t]. *)
Definition paint (d : DrawFn) (t : R) : Picture :=
  match d with
  | drawImage img => Still img
  | _ => Painted d t
  end.

(** [animate], [t] being [clock.getElapsedTime()].  When
    [DEMOS[currentDemo]] is [undefined] the call throws and the rest of the
    frame is skipped.  [sourceTexture.needsUpdate = true] makes the render
    upload the canvas behind whichever texture [sourceTexture] names. *)
Definition animate (t : R) (s : State) : State :=
  let s := { s with animationFrame ::= S } in
  match DEMOS_at s with
  | Some d =>
    let s := { s with sourceCanvas := paint (draw d) t } in
    match sourceTexture s with
    | CanvasTexture_source => { s with source_gpu := sourceCanvas s }
    | CanvasTexture_ai _ => s
    end
  | None => s
  end.

(** ** What the billboard shows *)

(** The texture [videoMesh]'s material samples. *)
Definition billboard_texture (s : State) : Texture :=
  match videoMesh_material s with
  | material => uniforms_tex s
  | MeshBasicMaterial map => map
  end.

(** The pixels behind a texture, as the renderer has them. *)
Definition texture_pixels (tex : Texture) (s : State) : Picture :=
  match tex with
  | CanvasTexture_source => source_gpu s
  | CanvasTexture_ai img => Still img
  end.

Definition billboard_pixels (s : State) : Picture :=
  texture_pixels (billboard_texture s) s.

(** The uniforms the shader runs with; [None] when a slider left [NaN]. *)
Definition shader_uniforms (s : State) : option Shader.Uniforms :=
  match uniforms_similarity s, uniforms_smoothness s with
  | Some sim, Some smooth =>
      Some (Shader.mkUniforms (Shader.mkvec3 0 1 0) sim smooth 0.15%R)
  | _, _ => None
  end.

(** ** Events and runs *)

Inductive Event :=
| ClickToggleChroma
| ClickNextDemo
| InputSimilarity (v : option R)
| InputSmoothness (v : option R)
| ClickAiGenerate (value : option string) (now : nat)
| LoadResolved (k : nat) (img : Image)
| LoadRejected (k : nat)
| ClickArCamera
| GetUserMediaResolved (stream : MediaStream)
| GetUserMediaRejected
| PlayResolved
| PlayRejected
| AnimationFrame (t : R)
| ToastTimeout.

Definition step (s : State) (e : Event) : State :=
  match e with
  | ClickToggleChroma => toggle_chroma_onclick s
  | ClickNextDemo => next_demo_onclick s
  | InputSimilarity v => similarity_oninput v s
  | InputSmoothness v => smoothness_oninput v s
  | ClickAiGenerate value now => ai_generate_onclick value now s
  | LoadResolved k img => ai_generate_resolved k img s
  | LoadRejected k => ai_generate_rejected k s
  | ClickArCamera => ar_camera_onclick s
  | GetUserMediaResolved stream => ar_camera_granted stream s
  | GetUserMediaRejected => ar_camera_denied s
  | PlayResolved => ar_camera_playing s
  | PlayRejected => ar_camera_play_failed s
  | AnimationFrame t => animate t s
  | ToastTimeout => toast_timeout s
  end.

Definition run (s : State) (es : list Event) : State := fold_left step es s.

(** ** What the proofs talk about *)

(** Everything the classifier and the frame loop read: the texture and the
    material of the billboard, the two tunable uniforms, the demo list and
    index, the texture [sourceTexture] names, the preview's map, and the
    canvas with its uploaded copy. *)
Record View := mkView {
  view_tex : Texture;
  view_material : MeshMaterial;
  view_similarity : option R;
  view_smoothness : option R;
  view_DEMOS : list Demo;
  view_currentDemo : option nat;
  view_sourceTexture : Texture;
  view_preview : Texture;
  view_canvas : Picture;
  view_gpu : Picture
}.

Definition classifier_view (s : State) : View :=
  mkView (uniforms_tex s) (videoMesh_material s)
         (uniforms_similarity s) (uniforms_smoothness s)
         (DEMOS s) (currentDemo s) (sourceTexture s) (preview_map s)
         (sourceCanvas s) (source_gpu s).

(** The invariant of the page: the flag [aiImageLoading] counts the loads
    in flight, and the demo index is a number inside the demo list. *)
Definition invariant (s : State) : Prop :=
  List.length (pending_loads s) = (if aiImageLoading s then 1 else 0)
  /\ exists i, currentDemo s = Some i /\ i < List.length (DEMOS s).

(** The AR button pressed twice before the first [getUserMedia] settles,
    both requests granted (streams with tracks 1 and 2), then AR mode
    switched off. *)
Definition double_start_then_stop : list Event :=
  [ ClickArCamera; ClickArCamera;
    GetUserMediaResolved [1]; PlayResolved;
    GetUserMediaResolved [2]; PlayResolved;
    ClickArCamera ].

(** The AR button pressed twice, the first request granted, then AR mode
    switched off while the second request is still waiting. *)
Definition double_start_stop_early : list Event :=
  [ ClickArCamera; ClickArCamera;
    GetUserMediaResolved [1]; PlayResolved;
    ClickArCamera ].

(** One start, granted and playing. *)
Definition single_start : list Event :=
  [ ClickArCamera; GetUserMediaResolved [1; 2]; PlayResolved ].

(** ** The URL [generateAIScene] returns *)

(** The characters [encodeURIComponent] leaves as they are: letters,
    digits and [- _ . ! ~ * ' ( )]. *)
Definition is_unreserved (c : ascii) : bool :=
  let n := nat_of_ascii c in
  ((65 <=? n)%nat && (n <=? 90)%nat)
  || ((97 <=? n)%nat && (n <=? 122)%nat)
  || ((48 <=? n)%nat && (n <=? 57)%nat)
  || existsb (Ascii.eqb c)
       ["-"; "_"; "."; "!"; "~"; "*"; "'"; "("; ")"]%char.

Definition hex_digit (n : nat) : ascii :=
  nth n (list_ascii_of_string "0123456789ABCDEF") "0"%char.

(** [%XX] for one byte, in upper-case hexadecimal. *)
Definition percent_encode (c : ascii) : string :=
  String "%" (String (hex_digit (nat_of_ascii c / 16))
             (String (hex_digit (nat_of_ascii c mod 16)) "")).

(** [encodeURIComponent] on a string given as its UTF-8 bytes: every byte
    that is not an unreserved character becomes [%XX]. *)
Fixpoint encodeURIComponent (x : string) : string :=
  match x with
  | "" => ""
  | String c x' =>
      (if is_unreserved c then String c "" else percent_encode c)
      ++ encodeURIComponent x'
  end.

(** A number in a template literal: its decimal digits. *)
Definition decimal (n : nat) : string :=
  NilEmpty.string_of_uint (Nat.to_uint n).

(** The template literal [generateAIScene] returns, for the prompt and the
    seed of a request. *)
Definition request_url (rq : Request) : string :=
  "https://image.pollinations.ai/prompt/"
  ++ encodeURIComponent (req_prompt rq)
  ++ "?width=512&height=512&seed=" ++ decimal (req_seed rq) ++ "&model=flux".


(** Whether a character occurs in a string. *)
Fixpoint occurs (c : ascii) (x : string) : bool :=
  match x with
  | "" => false
  | String c' x' => Ascii.eqb c c' || occurs c x'
  end.

(** Percent-decoding, the inverse a server applies to a path segment. *)
Definition unhex (c : ascii) : nat :=
  let n := nat_of_ascii c in
  if (n <=? 57)%nat then n - 48 else n - 55.

Fixpoint percent_decode (x : string) : string :=
  match x with
  | "" => ""
  | String c x' =>
      match x' with
      | String h (String l rest) =>
          if Ascii.eqb c "%"
          then String (ascii_of_nat (16 * unhex h + unhex l)) (percent_decode rest)
          else String c (percent_decode x')
      | _ => String c (percent_decode x')
      end
  end.

(** ** Vocabulary for further properties of the page *)

(** The events of the AR camera handler. *)
Definition is_ar_event (e : Event) : bool :=
  match e with
  | ClickArCamera | GetUserMediaResolved _ | GetUserMediaRejected
  | PlayResolved | PlayRejected => true
  | _ => false
  end.

Definition is_LoadResolved (e : Event) : bool :=
  match e with
  | LoadResolved _ _ => true
  | _ => false
  end.


(** The parts of the state the handlers keep in step with one another. *)
Definition coherent (s : State) : Prop :=
  uniforms_tex s = sourceTexture s
  /\ preview_map s = sourceTexture s
  /\ (chromaKeyEnabled s = true -> videoMesh_material s = material)
  /\ (chromaKeyEnabled s = false ->
      exists map, videoMesh_material s = MeshBasicMaterial map)
  /\ grid_visible s = negb (ar_camera_active s)
  /\ ar_camera_class_active s = ar_camera_active s
  /\ (toast_timer s = true <-> toast_opacity s = Some "1")
  /\ aiPromptIndex s = List.length (issued s).


(** The billboard is bound to the texture of the AI image [img]. *)
Definition shows_ai_image (img : Image) (s : State) : Prop :=
  sourceTexture s = CanvasTexture_ai img
  /\ uniforms_tex s = CanvasTexture_ai img
  /\ (videoMesh_material s = material
      \/ videoMesh_material s = MeshBasicMaterial (CanvasTexture_ai img)).

(** What AR mode is made of: the mode flag, the stored stream, the
    requests pending and the tracks capturing. *)
Definition ar_settled (s : State) : Prop :=
  live_tracks s = match window_arStream s with
                  | Some stream => stream
                  | None => []
                  end
  /\ pending_getUserMedia s + pending_play s <= 1
  /\ (ar_camera_active s = true ->
      pending_getUserMedia s = 0 /\ pending_play s = 0)
  /\ (ar_camera_active s = false -> pending_play s = 0 ->
      window_arStream s = None).

(** The stream [window._arStream] holds, as a list of tracks. *)
Definition stored_tracks (s : State) : list Track :=
  match window_arStream s with
  | Some stream => stream
  | None => []
  end.

(** A use of the AR button that waits: no click while a [getUserMedia] or a
    [play()] of an earlier click is pending, and [play()] does not reject. *)
Definition ar_patient (s : State) (e : Event) : bool :=
  match e with
  | ClickArCamera =>
      Nat.eqb (pending_getUserMedia s) 0 && Nat.eqb (pending_play s) 0
  | PlayRejected => false
  | _ => true
  end.

Fixpoint all_patient (s : State) (es : list Event) : bool :=
  match es with
  | [] => true
  | e :: es' => ar_patient s e && all_patient (step s e) es'
  end.

End App.

(** * The canvas routines of [app.js]

    A draw routine is embedded as the list of calls it makes on the 2D
    context, in order, with the arguments it computes; the context itself
    is the part of the canvas state these calls read and write (the
    transform, the styles, the save stack) and the log of what was drawn
    under which state. *)

Module Canvas.

Local Open Scope R_scope.
Local Open Scope string_scope.

(** ** Calls on the context *)

Inductive Cmd :=
| SetFillStyle (v : string)
| SetStrokeStyle (v : string)
| SetLineWidth (v : R)
| SetFont (v : string)
| SetTextAlign (v : string)
| SetTextBaseline (v : string)
| FillRect (x y w h : R)
| FillText (text : string) (x y : R)
| BeginPath
| ClosePath
| MoveTo (x y : R)
| LineTo (x y : R)
| Arc (x y radius startAngle endAngle : R)
| Fill
| Stroke
| Save
| Restore
| Translate (x y : R)
| Rotate (angle : R)
| Scale (x y : R)
| DrawImage (img : App.Image) (x y w h : R).

(** ** The context *)

(** The current transform, mapping [(x, y)] to
    [(a x + c y + e, b x + d y + f)]. *)
Record Matrix := mkMatrix { ma : R; mb : R; mc : R; md : R; me : R; mf : R }.

Definition identity : Matrix := mkMatrix 1 0 0 1 0 0.

Definition translate (x y : R) (m : Matrix) : Matrix :=
  mkMatrix (ma m) (mb m) (mc m) (md m)
           (ma m * x + mc m * y + me m) (mb m * x + md m * y + mf m).

Definition rotate (angle : R) (m : Matrix) : Matrix :=
  mkMatrix (ma m * cos angle + mc m * sin angle)
           (mb m * cos angle + md m * sin angle)
           (- ma m * sin angle + mc m * cos angle)
           (- mb m * sin angle + md m * cos angle)
           (me m) (mf m).

Definition scale (x y : R) (m : Matrix) : Matrix :=
  mkMatrix (ma m * x) (mb m * x) (mc m * y) (md m * y) (me m) (mf m).

(** What [save] pushes and [restore] pops. *)
Record DrawingState := mkDrawingState {
  transform : Matrix;
  fillStyle : string;
  strokeStyle : string;
  lineWidth : R;
  font : string;
  textAlign : string;
  textBaseline : string
}.

Record Context := mkContext {
  current : DrawingState;
  stack : list DrawingState;
  drawn : list (DrawingState * Cmd)   (* newest first *)
}.

(** A context as [getContext('2d')] returns it. *)
Definition fresh : Context :=
  mkContext
    (mkDrawingState identity "#000000" "#000000" 1 "10px sans-serif"
                    "start" "alphabetic")
    [] [].

Definition with_current (f : DrawingState -> DrawingState) (ctx : Context)
    : Context :=
  mkContext (f (current ctx)) (stack ctx) (drawn ctx).

Definition with_transform (f : Matrix -> Matrix) (d : DrawingState)
    : DrawingState :=
  mkDrawingState (f (transform d)) (fillStyle d) (strokeStyle d) (lineWidth d)
                 (font d) (textAlign d) (textBaseline d).

Definition log (c : Cmd) (ctx : Context) : Context :=
  mkContext (current ctx) (stack ctx) ((current ctx, c) :: drawn ctx).

Definition exec_cmd (ctx : Context) (c : Cmd) : Context :=
  match c with
  | SetFillStyle v =>
      with_current (fun d => mkDrawingState (transform d) v (strokeStyle d)
        (lineWidth d) (font d) (textAlign d) (textBaseline d)) ctx
  | SetStrokeStyle v =>
      with_current (fun d => mkDrawingState (transform d) (fillStyle d) v
        (lineWidth d) (font d) (textAlign d) (textBaseline d)) ctx
  | SetLineWidth v =>
      with_current (fun d => mkDrawingState (transform d) (fillStyle d)
        (strokeStyle d) v (font d) (textAlign d) (textBaseline d)) ctx
  | SetFont v =>
      with_current (fun d => mkDrawingState (transform d) (fillStyle d)
        (strokeStyle d) (lineWidth d) v (textAlign d) (textBaseline d)) ctx
  | SetTextAlign v =>
      with_current (fun d => mkDrawingState (transform d) (fillStyle d)
        (strokeStyle d) (lineWidth d) (font d) v (textBaseline d)) ctx
  | SetTextBaseline v =>
      with_current (fun d => mkDrawingState (transform d) (fillStyle d)
        (strokeStyle d) (lineWidth d) (font d) (textAlign d) v) ctx
  | Save => mkContext (current ctx) (current ctx :: stack ctx) (drawn ctx)
  | Restore =>
      match stack ctx with
      | d :: rest => mkContext d rest (drawn ctx)
      | [] => ctx
      end
  | Translate x y => with_current (with_transform (translate x y)) ctx
  | Rotate angle => with_current (with_transform (rotate angle)) ctx
  | Scale x y => with_current (with_transform (scale x y)) ctx
  | FillRect _ _ _ _ | FillText _ _ _ | BeginPath | ClosePath | MoveTo _ _
  | LineTo _ _ | Arc _ _ _ _ _ | Fill | Stroke | DrawImage _ _ _ _ _ =>
      log c ctx
  end.

Definition exec (cmds : list Cmd) (ctx : Context) : Context :=
  fold_left exec_cmd cmds ctx.

(** ** JS arithmetic the routines use *)

(** [x % y] on numbers: the remainder has the sign of the dividend. *)
Definition js_rem (x y : R) : R :=
  let q := x / y in
  x - y * IZR (if Rle_dec 0 q then Int_part q else (- Int_part (- q))%Z).

(** Indexing an array literal; [""] stands for [undefined]. *)
Definition at_index (l : list string) (i : nat) : string := nth i l "".

(** ** The routines *)

Definition drawRobot (w h t : R) : list Cmd :=
  let cx := w / 2 in
  let cy := h / 2 in
  let sway := sin (t * 3) * 15 in
  let px := sin (t * 2) * 4 in
  let mouthH := 3 + Rabs (sin (t * 4)) * 8 in
  let armAngle := sin (t * 2.5) * 30 in
  let legAngle := sin (t * 3) * 20 in
  [ SetFillStyle "#00ff00"; FillRect 0 0 w h;
    Save; Translate (cx + sway) (cy + 30);
    SetFillStyle "#4466ff"; FillRect (-40) (-30) 80 80;
    SetFillStyle "#5577ff"; FillRect (-30) (-70) 60 45;
    SetFillStyle "#ffffff"; FillRect (-20) (-60) 15 15; FillRect 5 (-60) 15 15;
    SetFillStyle "#000000";
    FillRect (-16 + px) (-56) 7 7; FillRect (9 + px) (-56) 7 7;
    SetFillStyle "#ff4466"; FillRect (-15) (-42) 30 mouthH;
    Save; Translate (-40) (-10); Rotate (armAngle * PI / 180);
    SetFillStyle "#4466ff"; FillRect (-8) 0 16 50;
    SetFillStyle "#cccccc"; BeginPath; Arc 0 55 10 0 (PI * 2); Fill;
    Restore;
    Save; Translate 40 (-10); Rotate (- armAngle * PI / 180);
    SetFillStyle "#4466ff"; FillRect (-8) 0 16 50;
    SetFillStyle "#cccccc"; BeginPath; Arc 0 55 10 0 (PI * 2); Fill;
    Restore;
    Save; Translate (-20) 50; Rotate (legAngle * PI / 180);
    SetFillStyle "#3355cc"; FillRect (-8) 0 16 50;
    Restore;
    Save; Translate 20 50; Rotate (- legAngle * PI / 180);
    SetFillStyle "#3355cc"; FillRect (-8) 0 16 50;
    Restore;
    SetStrokeStyle "#cccccc"; SetLineWidth 2;
    BeginPath; MoveTo 0 (-70); LineTo (sin (t * 5) * 10) (-90); Stroke;
    SetFillStyle "#ff4466";
    BeginPath; Arc (sin (t * 5) * 10) (-93) 5 0 (PI * 2); Fill;
    Restore ].

(** One turn of the hexagon loop of [drawLogo]. *)
Definition hexagon_vertex (size : R) (i : nat) : list Cmd :=
  let angle := (INR i / 6) * PI * 2 - PI / 2 in
  let x := cos angle * size in
  let y := sin angle * size in
  [ if Nat.eqb i 0 then MoveTo x y else LineTo x y ].

(** One turn of the orbit loop of [drawLogo]. *)
Definition orbit_circle (cx cy t : R) (i : nat) : list Cmd :=
  let angle := t * 1.5 + (INR i / 5) * PI * 2 in
  let r := 120 in
  let x := cx + cos angle * r in
  let y := cy + sin angle * r in
  [ BeginPath; Arc x y 8 0 (PI * 2);
    SetFillStyle
      (at_index ["#00edaf"; "#00b5ad"; "#8b5cf6"; "#ff4466"; "#ffc828"] i);
    Fill ].

Definition drawLogo (w h t : R) : list Cmd :=
  let cx := w / 2 in
  let cy := h / 2 in
  let size := 80 + sin (t * 2) * 20 in
  [ SetFillStyle "#00ff00"; FillRect 0 0 w h;
    Save; Translate cx cy; Rotate (t * 0.5);
    BeginPath ]
  ++ flat_map (hexagon_vertex size) (seq 0 6)
  ++ [ ClosePath; SetFillStyle "#8b5cf6"; Fill;
       SetStrokeStyle "#00edaf"; SetLineWidth 3; Stroke;
       Rotate (- t * 0.5);
       SetFillStyle "#ffffff"; SetFont "bold 36px sans-serif";
       SetTextAlign "center"; SetTextBaseline "middle";
       FillText "PSM" 0 0;
       SetFont "12px sans-serif"; SetFillStyle "#00edaf";
       FillText "Purple Squirrel Media" 0 25;
       Restore ]
  ++ flat_map (orbit_circle cx cy t) (seq 0 5).

(** One turn of the particle loop of [drawParticles]. *)
Definition particle (cx cy t : R) (i : nat) : list Cmd :=
  let seed := INR i * 137.508 in
  let angle := seed + t * (0.3 + INR (i mod 5) * 0.1) in
  let r := 30 + js_rem (INR i * 3 + t * 40) 200 in
  let x := cx + cos angle * r in
  let y := cy + sin angle * r in
  let size := 2 + sin (t * 3 + INR i) * 2 in
  let colors :=
    ["#8b5cf6"; "#00edaf"; "#00b5ad"; "#ff4466"; "#ffc828"; "#ffffff"] in
  [ BeginPath; Arc x y size 0 (PI * 2);
    SetFillStyle (at_index colors (i mod List.length colors));
    Fill ].

Definition drawParticles (w h t : R) : list Cmd :=
  let cx := w / 2 in
  let cy := h / 2 in
  let scale := 1 + sin (t * 2) * 0.1 in
  [ SetFillStyle "#00ff00"; FillRect 0 0 w h ]
  ++ flat_map (particle cx cy t) (seq 0 60)
  ++ [ SetFillStyle "#ffffff"; SetFont "bold 28px sans-serif";
       SetTextAlign "center"; SetTextBaseline "middle";
       Save; Translate cx cy; Scale scale scale;
       FillText "VOLUMETRIC" 0 (-10);
       SetFont "14px sans-serif"; SetFillStyle "#00edaf";
       FillText "chroma-key demo" 0 15;
       Restore ].

(** The [draw] member of a demo, called as [draw(ctx, w, h, t)]. *)
Definition draw_commands (d : App.DrawFn) (w h t : R) : list Cmd :=
  match d with
  | App.drawRobot => drawRobot w h t
  | App.drawLogo => drawLogo w h t
  | App.drawParticles => drawParticles w h t
  | App.drawImage img => [ DrawImage img 0 0 w h ]
  end.

(** The frames [animate] draws on [sourceCtx], one routine and one elapsed
    time per frame, on the 512 by 512 canvas. *)
Definition draw_frames (frames : list (App.DrawFn * R)) (ctx : Context)
    : Context :=
  fold_left (fun ctx f => exec (draw_commands (fst f) 512 512 (snd f)) ctx)
            frames ctx.

(** ** Vocabulary for the properties *)

Definition is_procedural (d : App.DrawFn) : bool :=
  match d with
  | App.drawImage _ => false
  | _ => true
  end.

(** The arcs a routine draws lie inside the canvas of width [w] and height
    [h], and none has a negative radius. *)
Definition arc_ok (w h : R) (c : Cmd) : Prop :=
  match c with
  | Arc x y radius _ _ =>
      0 <= radius /\ 0 <= x - radius /\ x + radius <= w
      /\ 0 <= y - radius /\ y + radius <= h
  | _ => True
  end.

Definition radius_ok (c : Cmd) : Prop :=
  match c with
  | Arc _ _ radius _ _ => 0 <= radius
  | _ => True
  end.

(** What a routine gives back to its caller: the transform and the save
    stack it found. *)
Definition same_frame (ctx ctx' : Context) : Prop :=
  transform (current ctx') = transform (current ctx)
  /\ stack ctx' = stack ctx.

(** A colour written [#rrggbb] as the texel a canvas holds for it. *)
Definition hex_value (c : ascii) : R :=
  let n := nat_of_ascii c in
  INR (if (n <=? 57)%nat then n - 48
       else if (n <=? 70)%nat then n - 55 else n - 87).

Definition css_color (v : string) : option Shader.vec3 :=
  match v with
  | String "#" (String r1 (String r0 (String g1 (String g0
      (String b1 (String b0 "")))))) =>
      Some (Shader.mkvec3 ((16 * hex_value r1 + hex_value r0) / 255)
                          ((16 * hex_value g1 + hex_value g0) / 255)
                          ((16 * hex_value b1 + hex_value b0) / 255))
  | _ => None
  end.

End Canvas.

(** * The video variant of the page

    The second source file is the page with a [<video>] element as the
    texture source.  Its module-level state is the [playing] flag, the
    video element's [paused] and [muted] attributes, the two button
    labels, and the material of the billboard, which is the chroma-key
    material only when the configured video asks for it. *)

Module VideoPage.

Local Open Scope string_scope.

(** An entry of [DEMO_VIDEOS]; [keyColor] is the array spread into
    [THREE.Color]. *)
Record DemoVideo := mkDemoVideo {
  video_name : string;
  video_url : string;
  video_keyColor : Shader.vec3;
  useChromaKey : bool
}.

Definition DEMO_VIDEOS : list DemoVideo :=
  [ mkDemoVideo "Green Screen Demo"
                "https://www.w3schools.com/html/mov_bbb.mp4"
                (Shader.mkvec3 0 1 0) false ].

(** The uniforms of the [ShaderMaterial]; a slider can leave [NaN]
    ([None]) in the two it writes. *)
Record ChromaUniforms := mkChromaUniforms {
  keyColor : Shader.vec3;
  similarity : option R;
  smoothness : option R;
  spill : R
}.

(** [videoMesh.material]; only the first has [uniforms]. *)
Inductive Material :=
| ShaderMaterial (uniforms : ChromaUniforms)
| MeshBasicMaterial.

Record State := mkState {
  playing : bool;
  videoEl_paused : bool;
  videoEl_muted : bool;
  play_btn_text : option string;     (* once written *)
  mute_btn_text : option string;
  videoMesh_material : Material
}.

(** [init], for the first entry of the video list. *)
Definition init (video : DemoVideo) : State :=
  mkState false true true None None
    (if useChromaKey video
     then ShaderMaterial
            (mkChromaUniforms (video_keyColor video) (Some 0.4%R) (Some 0.08%R)
                              0.1%R)
     else MeshBasicMaterial).

(** [togglePlay].  [videoEl.play()] clears [paused] when the browser lets
    the video start ([can_play]) and leaves it otherwise. *)
Definition togglePlay (can_play : bool) (s : State) : State :=
  let s :=
    if playing s
    then mkState (playing s) true (videoEl_muted s) (Some "▶ Play")
                 (mute_btn_text s) (videoMesh_material s)
    else mkState (playing s) (if can_play then false else videoEl_paused s)
                 (videoEl_muted s) (Some "⏸ Pause")
                 (mute_btn_text s) (videoMesh_material s) in
  mkState (negb (playing s)) (videoEl_paused s) (videoEl_muted s)
          (play_btn_text s) (mute_btn_text s) (videoMesh_material s).

(** [toggleMute]. *)
Definition toggleMute (s : State) : State :=
  let s := mkState (playing s) (videoEl_paused s) (negb (videoEl_muted s))
                   (play_btn_text s) (mute_btn_text s) (videoMesh_material s) in
  mkState (playing s) (videoEl_paused s) (videoEl_muted s) (play_btn_text s)
          (Some (if videoEl_muted s then "🔇" else "🔊"))
          (videoMesh_material s).

(** [similarity] [oninput], [v] being [parseFloat] of the field: guarded
    by [if (videoMesh.material.uniforms)]. *)
Definition similarity_oninput (v : option R) (s : State) : State :=
  match videoMesh_material s with
  | ShaderMaterial u =>
      mkState (playing s) (videoEl_paused s) (videoEl_muted s)
              (play_btn_text s) (mute_btn_text s)
              (ShaderMaterial
                 (mkChromaUniforms (keyColor u) v (smoothness u) (spill u)))
  | MeshBasicMaterial => s
  end.

Definition smoothness_oninput (v : option R) (s : State) : State :=
  match videoMesh_material s with
  | ShaderMaterial u =>
      mkState (playing s) (videoEl_paused s) (videoEl_muted s)
              (play_btn_text s) (mute_btn_text s)
              (ShaderMaterial
                 (mkChromaUniforms (keyColor u) (similarity u) v (spill u)))
  | MeshBasicMaterial => s
  end.

Inductive Event :=
| ClickPlay (can_play : bool)
| ClickMute
| InputSimilarity (v : option R)
| InputSmoothness (v : option R).

Definition step (s : State) (e : Event) : State :=
  match e with
  | ClickPlay can_play => togglePlay can_play s
  | ClickMute => toggleMute s
  | InputSimilarity v => similarity_oninput v s
  | InputSmoothness v => smoothness_oninput v s
  end.

Definition run (s : State) (es : list Event) : State := fold_left step es s.

(** ** Vocabulary for the properties *)

Definition is_play (e : Event) : bool :=
  match e with ClickPlay _ => true | _ => false end.

Definition is_mute (e : Event) : bool :=
  match e with ClickMute => true | _ => false end.

(** No [play()] of the run was refused. *)
Definition never_refused (es : list Event) : bool :=
  forallb (fun e => match e with ClickPlay false => false | _ => true end) es.

(** The labels the two buttons carry once they have been written. *)
Definition play_label (s : State) : string :=
  if playing s then "⏸ Pause" else "▶ Play".

Definition mute_label (s : State) : string :=
  if videoEl_muted s then "🔇" else "🔊".

(** The two entries a test can switch between. *)
Definition plain_video : DemoVideo :=
  mkDemoVideo "plain" "a.mp4" (Shader.mkvec3 0 1 0) false.

Definition keyed_video : DemoVideo :=
  mkDemoVideo "keyed" "b.mp4" (Shader.mkvec3 0 1 0) true.

End VideoPage.

(** * Properties of the shader *)

Module ShaderProofs.

Import Shader.
Local Open Scope R_scope.

(** ** The built-ins *)

Lemma distance_same (p : vec2) : distance p p = 0.
Proof.
  unfold distance.
  replace ((vx p - vx p) * (vx p - vx p) + (vy p - vy p) * (vy p - vy p))
    with 0 by ring.
  apply sqrt_0.
Qed.

Lemma clamp_bounds (x : R) : 0 <= clamp x 0 1 <= 1.
Proof.
  unfold clamp, Rmin, Rmax.
  destruct (Rle_dec x 0); destruct (Rle_dec _ 1); lra.
Qed.

Lemma clamp_low (x : R) : x <= 0 -> clamp x 0 1 = 0.
Proof.
  intros Hx. unfold clamp, Rmin, Rmax.
  destruct (Rle_dec x 0); destruct (Rle_dec _ 1); lra.
Qed.

Lemma clamp_high (x : R) : 1 <= x -> clamp x 0 1 = 1.
Proof.
  intros Hx. unfold clamp, Rmin, Rmax.
  destruct (Rle_dec x 0); destruct (Rle_dec _ 1); lra.
Qed.

Lemma clamp_mono (x y : R) : x <= y -> clamp x 0 1 <= clamp y 0 1.
Proof.
  intros Hxy. unfold clamp, Rmin, Rmax.
  destruct (Rle_dec x 0); destruct (Rle_dec y 0);
    repeat match goal with |- context [Rle_dec ?e 1] => destruct (Rle_dec e 1) end;
    lra.
Qed.

Lemma clamp_spec (x : R) : clamp x 0 1 = spec_clamp01 x.
Proof.
  unfold clamp, spec_clamp01, Rmin, Rmax.
  destruct (Rle_dec x 0); destruct (Rlt_dec x 0); destruct (Rlt_dec 1 x);
    repeat match goal with |- context [Rle_dec ?e 1] => destruct (Rle_dec e 1) end;
    lra.
Qed.

Lemma fdiv_defined (x y : R) : y <> 0 -> fdiv x y = Some (x / y).
Proof.
  intros Hy. unfold fdiv. destruct (Req_dec_T y 0); [contradiction | reflexivity].
Qed.

Lemma glsl_pow_zero : glsl_pow 0 1.5 = Some 0.
Proof.
  unfold glsl_pow.
  destruct (Rlt_dec 0 0); [lra |].
  destruct (Req_dec_T 0 0); [| lra].
  destruct (Rle_dec 1.5 0); [lra | reflexivity].
Qed.

Lemma glsl_pow_pos (x y : R) : 0 < x -> glsl_pow x y = Some (Rpower x y).
Proof.
  intros Hx. unfold glsl_pow.
  destruct (Rlt_dec x 0); [lra |].
  destruct (Req_dec_T x 0); [lra | reflexivity].
Qed.

(** On the unit interval [pow(x, 1.5)] is defined and is [x * sqrt x]. *)
Lemma glsl_pow_15 (x : R) : 0 <= x -> glsl_pow x 1.5 = Some (spec_pow15 x).
Proof.
  intros [Hx | Hx].
  - rewrite glsl_pow_pos by assumption. f_equal. unfold spec_pow15.
    replace 1.5 with (1 + / 2) by lra.
    rewrite Rpower_plus, Rpower_1, Rpower_sqrt by assumption. reflexivity.
  - subst x. rewrite glsl_pow_zero. unfold spec_pow15.
    now rewrite sqrt_0, Rmult_0_l.
Qed.

Lemma spec_pow15_bounds (x : R) : 0 <= x <= 1 -> 0 <= spec_pow15 x <= 1.
Proof.
  intros [H0 H1]. unfold spec_pow15.
  assert (Hs0 : 0 <= sqrt x) by apply sqrt_pos.
  assert (Hs1 : sqrt x <= 1).
  { rewrite <- sqrt_1. now apply sqrt_le_1_alt. }
  split; [now apply Rmult_le_pos | nra].
Qed.

Lemma spec_pow15_mono (x y : R) : 0 <= x -> x <= y -> spec_pow15 x <= spec_pow15 y.
Proof.
  intros Hx Hxy. unfold spec_pow15.
  assert (H1 : sqrt x <= sqrt y) by now apply sqrt_le_1_alt.
  assert (H0 : 0 <= sqrt x) by apply sqrt_pos.
  nra.
Qed.

(** A lower bound on a square root from the square of the bound. *)
Lemma sqrt_lower (c x : R) : 0 <= c -> c * c <= x -> c <= sqrt x.
Proof.
  intros Hc Hx. rewrite <- (sqrt_square c) by assumption.
  now apply sqrt_le_1_alt.
Qed.

(** ** The alpha channel of [main] *)

(** The alpha [main] writes, for a non-zero [smoothness]. *)
Lemma main_alpha (u : Uniforms) (px : vec4) :
  smoothness u <> 0 ->
  out_a (main u px)
  = Some (spec_pow15 (clamp (baseMask u px / smoothness u) 0 1)).
Proof.
  intros Hs. unfold main, baseMask, chromaDistance. cbn [out_a].
  rewrite fdiv_defined by assumption. cbn [bind].
  apply glsl_pow_15, clamp_bounds.
Qed.

(** The colour [main] writes, for a non-zero [spill]. *)
Lemma main_color (u : Uniforms) (px : vec4) :
  spill u <> 0 ->
  out_rgb (main u px)
  = Some (mix (vec3_of (clamp (r (rgb px) * 0.2126 + g (rgb px) * 0.7152
                               + b (rgb px) * 0.0722) 0 1))
              (rgb px)
              (spec_pow15 (clamp (baseMask u px / spill u) 0 1))).
Proof.
  intros Hs. unfold main, baseMask, chromaDistance. cbn [out_rgb].
  rewrite fdiv_defined by assumption. cbn [bind].
  rewrite glsl_pow_15 by apply clamp_bounds. reflexivity.
Qed.

Lemma red_green_distance (sim smooth sp : R) :
  0.9 <= chromaDistance (mkUniforms (mkvec3 0 1 0) sim smooth sp) red.
Proof.
  unfold chromaDistance, distance, RGBtoUV, red. cbn.
  apply sqrt_lower; lra.
Qed.

Lemma chromaDistance_key (u : Uniforms) (px : vec4) :
  rgb px = keyColor u -> chromaDistance u px = 0.
Proof. intros Hkey. unfold chromaDistance. rewrite Hkey. apply distance_same. Qed.

(** ** The claims on the classifier *)

(** C1. A pixel whose RGB triple is the key colour has chroma distance 0,
    so its base mask is [- similarity]; for a positive similarity (and the
    positive smoothness of the key parameters) its output alpha is 0. *)
Theorem key_pixel_transparent (u : Uniforms) (px : vec4) :
  rgb px = keyColor u ->
  chromaDistance u px = 0
  /\ baseMask u px = - similarity u
  /\ (0 < similarity u -> 0 < smoothness u -> out_a (main u px) = Some 0).
Proof.
  intros Hkey.
  assert (Hd : chromaDistance u px = 0) by now apply chromaDistance_key.
  assert (Hb : baseMask u px = - similarity u).
  { unfold baseMask. rewrite Hd. ring. }
  repeat split; try assumption.
  intros Hsim Hsmooth.
  rewrite main_alpha by lra.
  rewrite clamp_low.
  - unfold spec_pow15. now rewrite Rmult_0_l.
  - rewrite Hb. unfold Rdiv.
    assert (0 < / smoothness u) by now apply Rinv_0_lt_compat.
    nra.
Qed.

Lemma key_pixel_transparent_witness :
  rgb green = keyColor app_uniforms
  /\ chromaDistance app_uniforms green = 0
  /\ out_a (main app_uniforms green) = Some 0.
Proof.
  destruct (key_pixel_transparent app_uniforms green eq_refl) as (Hd & _ & Ha).
  split; [reflexivity |]. split; [exact Hd |].
  apply Ha; cbn; lra.
Defined.

(** C2. A pixel whose chroma distance is at least similarity + smoothness,
    smoothness being positive, has output alpha 1. *)
Theorem far_pixel_opaque (u : Uniforms) (px : vec4) :
  0 < smoothness u ->
  similarity u + smoothness u <= chromaDistance u px ->
  out_a (main u px) = Some 1.
Proof.
  intros Hsmooth Hfar.
  rewrite main_alpha by lra.
  rewrite clamp_high.
  - unfold spec_pow15. now rewrite sqrt_1, Rmult_1_l.
  - unfold baseMask.
    apply (Rmult_le_reg_r (smoothness u)); [assumption |].
    unfold Rdiv. rewrite Rmult_assoc, Rinv_l by lra. lra.
Qed.

Lemma far_pixel_opaque_witness :
  0 < smoothness app_uniforms
  /\ similarity app_uniforms + smoothness app_uniforms
     <= chromaDistance app_uniforms red
  /\ out_a (main app_uniforms red) = Some 1.
Proof.
  assert (Hs : 0 < smoothness app_uniforms) by (cbn; lra).
  assert (Hd : similarity app_uniforms + smoothness app_uniforms
               <= chromaDistance app_uniforms red).
  { pose proof (red_green_distance 0.3 0.1 0.15) as H.
    fold app_uniforms in H. cbn [similarity smoothness app_uniforms]. lra. }
  split; [exact Hs |]. split; [exact Hd |].
  exact (far_pixel_opaque app_uniforms red Hs Hd).
Defined.

Lemma alpha_at_defined (u : Uniforms) (d : R) :
  smoothness u <> 0 ->
  alpha_at u d
  = Some (spec_pow15 (clamp ((d - similarity u) / smoothness u) 0 1)).
Proof.
  intros Hs. unfold alpha_at. rewrite fdiv_defined by assumption. cbn [bind].
  apply glsl_pow_15, clamp_bounds.
Qed.

(** C3. For fixed parameters with positive smoothness, the output alpha is
    a function of the chroma distance, and that function is non-decreasing:
    for [d1 <= d2] it is defined at both and its value at [d1] is at most
    its value at [d2]. *)
Theorem alpha_monotone (u : Uniforms) (d1 d2 : R) :
  0 < smoothness u ->
  d1 <= d2 ->
  (forall px : vec4, out_a (main u px) = alpha_at u (chromaDistance u px))
  /\ exists a1 a2 : R,
       alpha_at u d1 = Some a1 /\ alpha_at u d2 = Some a2 /\ a1 <= a2.
Proof.
  intros Hsmooth Hd. split; [reflexivity |].
  exists (spec_pow15 (clamp ((d1 - similarity u) / smoothness u) 0 1)).
  exists (spec_pow15 (clamp ((d2 - similarity u) / smoothness u) 0 1)).
  split; [apply alpha_at_defined; lra |].
  split; [apply alpha_at_defined; lra |].
  apply spec_pow15_mono; [apply clamp_bounds |].
  apply clamp_mono. unfold Rdiv.
  apply Rmult_le_compat_r; [| lra].
  left. now apply Rinv_0_lt_compat.
Qed.

Lemma alpha_monotone_witness :
  0 < smoothness app_uniforms
  /\ chromaDistance app_uniforms green <= chromaDistance app_uniforms red
  /\ exists a1 a2 : R,
       out_a (main app_uniforms green) = Some a1
       /\ out_a (main app_uniforms red) = Some a2 /\ a1 <= a2.
Proof.
  assert (Hs : 0 < smoothness app_uniforms) by (cbn; lra).
  assert (Hd : chromaDistance app_uniforms green
               <= chromaDistance app_uniforms red).
  { pose proof (red_green_distance 0.3 0.1 0.15) as H.
    fold app_uniforms in H.
    rewrite (chromaDistance_key app_uniforms green eq_refl). lra. }
  split; [exact Hs |]. split; [exact Hd |].
  destruct (alpha_monotone app_uniforms _ _ Hs Hd) as (Hmain & a1 & a2 & H1 & H2 & Hle).
  exists a1, a2. rewrite !Hmain. auto.
Defined.

(** The GLSL pipeline and the specification's seven steps agree on the
    intermediate quantities. *)
Lemma RGBtoUV_spec (c : vec3) : RGBtoUV c = mkvec2 (spec_U c) (spec_V c).
Proof. unfold RGBtoUV, spec_U, spec_V. f_equal; lra. Qed.

Lemma baseMask_spec (u : Uniforms) (px : vec4) :
  baseMask u px = spec_baseMask u (rgb px).
Proof.
  unfold baseMask, spec_baseMask, chromaDistance, spec_chromaDistance, distance.
  rewrite !RGBtoUV_spec. cbn [vx vy]. unfold Rsqr. reflexivity.
Qed.

Lemma mix_spec (y : R) (c : vec3) (f : R) :
  mix (vec3_of y) c f
  = mkvec3 (spec_blend y (r c) f) (spec_blend y (g c) f) (spec_blend y (b c) f).
Proof. unfold mix, vec3_of, spec_blend. cbn [r g b]. f_equal; ring. Qed.

(** C4. The output colour is the linear blend of the gray of the
    desaturated luma and the original colour by the spill factor, the
    spill factor being [clamp(baseMask / spill, 0, 1)^1.5]; the output alpha
    is the alpha of step 4.  The colour does not read [smoothness] and the
    alpha does not read [spill].  (A zero divisor leaves the channel it
    feeds undefined.) *)
Theorem main_matches_spec (u : Uniforms) (px : vec4) :
  out_rgb (main u px)
  = (if Req_dec_T (spill u) 0 then None else Some (spec_color u (rgb px)))
  /\ out_a (main u px)
     = (if Req_dec_T (smoothness u) 0 then None
        else Some (spec_alpha u (rgb px)))
  /\ (forall smoothness',
        out_rgb (main (mkUniforms (keyColor u) (similarity u) smoothness'
                                  (spill u)) px)
        = out_rgb (main u px))
  /\ (forall spill',
        out_a (main (mkUniforms (keyColor u) (similarity u) (smoothness u)
                                spill') px)
        = out_a (main u px)).
Proof.
  split; [| split; [| split]].
  - destruct (Req_dec_T (spill u) 0) as [Hz | Hnz].
    + unfold main. cbn [out_rgb]. unfold fdiv.
      destruct (Req_dec_T (spill u) 0); [reflexivity | contradiction].
    + rewrite main_color by assumption. f_equal.
      rewrite mix_spec. unfold spec_color, spec_spillFactor, spec_desaturatedLuma.
      rewrite <- !clamp_spec, <- baseMask_spec.
      replace (r (rgb px) * 0.2126 + g (rgb px) * 0.7152 + b (rgb px) * 0.0722)
        with (0.2126 * r (rgb px) + 0.7152 * g (rgb px) + 0.0722 * b (rgb px))
        by ring.
      reflexivity.
  - destruct (Req_dec_T (smoothness u) 0) as [Hz | Hnz].
    + unfold main. cbn [out_a]. unfold fdiv.
      destruct (Req_dec_T (smoothness u) 0); [reflexivity | contradiction].
    + rewrite main_alpha by assumption. f_equal.
      unfold spec_alpha. now rewrite <- clamp_spec, <- baseMask_spec.
  - intros smoothness'. reflexivity.
  - intros spill'. reflexivity.
Qed.

(** C5. With key colour (0,1,0), similarity 0.4 and smoothness 0.08, a pure
    green pixel gets alpha 0 and a pure red pixel gets alpha 1, whatever
    the spill; the chroma coordinates are the stated linear transform and
    the distance is Euclidean. *)
Theorem green_red_scenario (sp : R) :
  let u := mkUniforms (mkvec3 0 1 0) 0.4 0.08 sp in
  out_a (main u green) = Some 0
  /\ out_a (main u red) = Some 1
  /\ (forall c : vec3,
        vx (RGBtoUV c) = r c * (-0.169) + g c * (-0.331) + b c * 0.5 + 0.5
        /\ vy (RGBtoUV c) = r c * 0.5 + g c * (-0.419) + b c * (-0.081) + 0.5)
  /\ (forall p q : vec2,
        distance p q = sqrt (Rsqr (vx p - vx q) + Rsqr (vy p - vy q))).
Proof.
  intros u. split; [| split; [| split]].
  - rewrite main_alpha by (cbn; lra).
    rewrite clamp_low.
    + unfold spec_pow15. now rewrite Rmult_0_l.
    + unfold baseMask. rewrite (chromaDistance_key u green eq_refl).
      cbn [similarity smoothness u]. lra.
  - rewrite main_alpha by (cbn; lra).
    rewrite clamp_high.
    + unfold spec_pow15. now rewrite sqrt_1, Rmult_1_l.
    + unfold baseMask. pose proof (red_green_distance 0.4 0.08 sp) as H.
      fold u in H. cbn [similarity smoothness u]. lra.
  - intros c. unfold RGBtoUV. cbn [vx vy]. split; lra.
  - intros p q. reflexivity.
Qed.

(** C9. For a texel with all four channels in [0,1] and positive
    smoothness and spill, the shader's output is defined and each of its
    four channels lies in [0,1]. *)
Theorem output_in_unit_range (u : Uniforms) (px : vec4) :
  0 <= r (rgb px) <= 1 -> 0 <= g (rgb px) <= 1 -> 0 <= b (rgb px) <= 1 ->
  0 <= a px <= 1 ->
  0 < smoothness u -> 0 < spill u ->
  exists (c : vec3) (alpha : R),
    main u px = mkFragColor (Some c) (Some alpha)
    /\ 0 <= r c <= 1 /\ 0 <= g c <= 1 /\ 0 <= b c <= 1 /\ 0 <= alpha <= 1.
Proof.
  intros Hr Hg Hb _ Hsmooth Hspill.
  pose proof (main_color u px ltac:(lra)) as Hc.
  pose proof (main_alpha u px ltac:(lra)) as Ha.
  set (y := clamp _ 0 1) in Hc.
  set (f := spec_pow15 _) in Hc.
  set (al := spec_pow15 _) in Ha.
  exists (mix (vec3_of y) (rgb px) f), al.
  assert (Hy : 0 <= y <= 1) by apply clamp_bounds.
  assert (Hf : 0 <= f <= 1) by (apply spec_pow15_bounds, clamp_bounds).
  assert (Hal : 0 <= al <= 1) by (apply spec_pow15_bounds, clamp_bounds).
  split.
  { destruct (main u px) as [c0 a0]. cbn [out_rgb out_a] in Hc, Ha.
    now subst c0 a0. }
  unfold mix, vec3_of. cbn [r g b].
  repeat split; try tauto; nra.
Qed.

Lemma output_in_unit_range_witness :
  exists (c : vec3) (alpha : R),
    main app_uniforms gray = mkFragColor (Some c) (Some alpha)
    /\ 0 <= r c <= 1 /\ 0 <= g c <= 1 /\ 0 <= b c <= 1 /\ 0 <= alpha <= 1.
Proof.
  apply (output_in_unit_range app_uniforms gray); cbn; lra.
Defined.

End ShaderProofs.

(** * Properties of the page *)

Module AppProofs.

Import App.

(** ** The invariant *)

Lemma invariant_initial : invariant initial.
Proof. split; [reflexivity |]. exists 0. split; [reflexivity | cbn; lia]. Qed.

Lemma js_mod_lt (a b : nat) :
  0 < b -> exists i, js_mod a b = Some i /\ i < b.
Proof.
  intros Hb. unfold js_mod.
  destruct (Nat.eqb_spec b 0) as [-> | Hnz]; [lia |].
  exists (a mod b). split; [reflexivity |]. apply Nat.mod_upper_bound; lia.
Qed.

Lemma nth_error_in_range {A : Type} (l : list A) (i : nat) :
  i < List.length l -> exists x, nth_error l i = Some x.
Proof.
  intros Hi. destruct (nth_error l i) eqn:E; [eauto |].
  apply nth_error_None in E. lia.
Qed.

(** With at most one load in flight, the only load that can settle is the
    first, and settling it empties the list. *)
Lemma one_pending (l : list AiTask) (k : nat) (task : AiTask) :
  List.length l <= 1 -> nth_error l k = Some task ->
  l = [task] /\ remove_nth k l = [].
Proof.
  destruct l as [| x [| y l]]; cbn; intros Hlen Hk; try lia.
  - destruct k; discriminate.
  - destruct k as [| k]; cbn in Hk.
    + injection Hk as ->. split; reflexivity.
    + destruct k; discriminate.
Qed.

Lemma invariant_pending_le (s : State) :
  invariant s -> List.length (pending_loads s) <= 1.
Proof. intros [H _]. destruct (aiImageLoading s); lia. Qed.

(** Projections of updated states reduce to projections of the state. *)
Ltac state_simpl :=
  cbn [DEMOS currentDemo aiImageLoading aiPromptIndex chromaKeyEnabled
       animationFrame sourceTexture uniforms_tex uniforms_similarity
       uniforms_smoothness videoMesh_material preview_map grid_visible
       clearColor sourceCanvas source_gpu demo_name toggle_chroma_text
       ai_generate_text ai_generate_opacity ar_camera_active ar_camera_text
       ar_camera_class_active ar_videos toast_text toast_opacity toast_timer
       window_arStream pending_loads issued pending_getUserMedia pending_play
       live_tracks tset set gafu_getter gafu_field_updater fst snd];
  unfold const in *.

(** [show_demo_name] writes the label and nothing else. *)
Lemma show_demo_name_frame {A : Type} (p : State -> A) (s : State) :
  (forall v, p { s with demo_name := v } = p s) ->
  p (show_demo_name s) = p s.
Proof.
  intros Hp. unfold show_demo_name. destruct (DEMOS_at s); [apply Hp | reflexivity].
Qed.

Ltac demo_name_frame :=
  repeat match goal with
         | |- context [?p (show_demo_name ?s)] =>
             rewrite (show_demo_name_frame p s) by (intros; reflexivity)
         end.

Lemma length_snoc {A : Type} (l : list A) (x : A) :
  List.length (l ++ [x]) - 1 = List.length l.
Proof. rewrite length_app. cbn. lia. Qed.

Lemma invariant_step (s : State) (e : Event) :
  invariant s -> invariant (step s e).
Proof.
  intros Hinv. pose proof (invariant_pending_le s Hinv) as Hle.
  destruct Hinv as [Hload (i & Hi & Hlt)].
  destruct e; cbn [step].
  - (* toggle-chroma *)
    unfold toggle_chroma_onclick, invariant. state_simpl.
    destruct (negb (chromaKeyEnabled s)); state_simpl; eauto.
  - (* next-demo *)
    unfold next_demo_onclick, invariant. demo_name_frame. state_simpl.
    rewrite Hi.
    destruct (js_mod_lt (i + 1) (List.length (DEMOS s)) ltac:(lia))
      as (j & Hj & Hjlt).
    rewrite Hj. eauto.
  - unfold similarity_oninput, invariant. state_simpl. eauto.
  - unfold smoothness_oninput, invariant. state_simpl. eauto.
  - (* ai-generate, click *)
    unfold ai_generate_onclick, invariant, generateAIScene.
    destruct (aiImageLoading s) eqn:El.
    + rewrite El. eauto.
    + state_simpl. rewrite length_app. cbn [List.length]. split; [lia | eauto].
  - (* ai-generate, load resolved *)
    unfold ai_generate_resolved.
    destruct (nth_error (pending_loads s) k) as [task |] eqn:Ek.
    + destruct (one_pending _ _ _ Hle Ek) as [_ Hrm].
      unfold invariant, ai_generate_finally, showToast. state_simpl.
      demo_name_frame. state_simpl.
      rewrite Hrm, length_snoc. split; [reflexivity |].
      exists (List.length (DEMOS s)). rewrite length_app. cbn [List.length].
      split; [reflexivity | lia].
    + unfold invariant. eauto.
  - (* ai-generate, load rejected *)
    unfold ai_generate_rejected.
    destruct (nth_error (pending_loads s) k) as [task |] eqn:Ek.
    + destruct (one_pending _ _ _ Hle Ek) as [_ Hrm].
      unfold invariant, ai_generate_finally, showToast. state_simpl.
      rewrite Hrm. eauto.
    + unfold invariant. eauto.
  - (* ar-camera, click *)
    unfold ar_camera_onclick, invariant, showToast.
    destruct (ar_camera_active s); [destruct (window_arStream s) |];
      state_simpl; eauto.
  - unfold ar_camera_granted, invariant.
    destruct (pending_getUserMedia s); state_simpl; eauto.
  - unfold ar_camera_denied, invariant, showToast.
    destruct (pending_getUserMedia s); state_simpl; eauto.
  - unfold ar_camera_playing, invariant, showToast.
    destruct (pending_play s); state_simpl; eauto.
  - unfold ar_camera_play_failed, invariant, showToast.
    destruct (pending_play s); state_simpl; eauto.
  - (* animate *)
    unfold animate, invariant, DEMOS_at. state_simpl. rewrite Hi.
    destruct (nth_error (DEMOS s) i); state_simpl; [| eauto].
    destruct (sourceTexture s); state_simpl; eauto.
  - unfold toast_timeout, invariant.
    destruct (toast_timer s); state_simpl; eauto.
Qed.

Lemma invariant_run (es : list Event) (s : State) :
  invariant s -> invariant (run s es).
Proof.
  revert s. induction es as [| e es IH]; intros s Hs; cbn.
  - exact Hs.
  - apply IH, invariant_step, Hs.
Qed.

Lemma invariant_reachable (es : list Event) : invariant (run initial es).
Proof. apply invariant_run, invariant_initial. Qed.

(** ** The AI image load *)

(** A typed prompt, loaded: the scene is appended under its prompt and
    selected, and the billboard samples the new texture.  Without a typed
    prompt the first stock prompt is used and cut to 25 characters. *)
Example ai_scene_loaded :
  let s := run initial [ClickAiGenerate (Some "a red fox"%string) 17;
                        LoadResolved 0 5] in
  DEMOS s = DEMOS initial ++ [mkDemo "AI: a red fox" (drawImage 5)]
  /\ currentDemo s = Some 3
  /\ demo_name s = Some "AI: a red fox"%string
  /\ billboard_pixels s = Still 5
  /\ aiImageLoading s = false
  /\ map req_prompt (issued s)
     = ["a red fox, centered subject, green screen background, chroma key ready, high contrast"%string]
  /\ demo_name (run initial [ClickAiGenerate (Some ""%string) 17;
                             LoadResolved 0 5])
     = Some "AI: holographic dancer perfor"%string.
Proof. repeat split; reflexivity. Qed.

(** A click on [ai-generate] leaves a load in flight, whatever came before. *)
Lemma click_sets_loading (s : State) (value : option string) (now : nat) :
  aiImageLoading (ai_generate_onclick value now s) = true.
Proof.
  unfold ai_generate_onclick, generateAIScene.
  destruct (aiImageLoading s) eqn:El; [exact El | reflexivity].
Qed.

Lemma click_issued (s : State) (value : option string) (now : nat) :
  List.length (issued (ai_generate_onclick value now s))
  = List.length (issued s) + (if aiImageLoading s then 0 else 1).
Proof.
  unfold ai_generate_onclick, generateAIScene.
  destruct (aiImageLoading s).
  - lia.
  - state_simpl. rewrite length_app. reflexivity.
Qed.

Lemma click_view (s : State) (value : option string) (now : nat) :
  classifier_view (ai_generate_onclick value now s) = classifier_view s.
Proof.
  unfold ai_generate_onclick, generateAIScene.
  destruct (aiImageLoading s); reflexivity.
Qed.

Lemma rejected_view (s : State) (k : nat) :
  classifier_view (ai_generate_rejected k s) = classifier_view s.
Proof.
  unfold ai_generate_rejected.
  destruct (nth_error (pending_loads s) k); reflexivity.
Qed.

(** The next frame shows what the view determines. *)
Lemma frame_of_view (s s' : State) (t : R) :
  classifier_view s = classifier_view s' ->
  billboard_pixels (animate t s) = billboard_pixels (animate t s').
Proof.
  unfold classifier_view. intros Hv.
  injection Hv as Htex Hmat _ _ Hdemos Hcur Hsrc _ _ Hgpu.
  unfold animate, DEMOS_at. state_simpl.
  rewrite Hdemos, Hcur, Hsrc.
  unfold billboard_pixels, billboard_texture, texture_pixels.
  destruct (currentDemo s') as [i |]; [destruct (nth_error (DEMOS s') i) |];
    try destruct (sourceTexture s'); state_simpl;
    rewrite Hmat, Htex, ?Hgpu; reflexivity.
Qed.

Lemma uniforms_of_view (s s' : State) :
  classifier_view s = classifier_view s' ->
  shader_uniforms s = shader_uniforms s'.
Proof.
  unfold classifier_view, shader_uniforms. intros Hv.
  injection Hv as _ _ Hsim Hsmooth _ _ _ _ _ _.
  now rewrite Hsim, Hsmooth.
Qed.

(** C6. At no reachable state are two image loads in flight, and of two
    activation requests in a row, whatever the state, the second changes
    nothing: after the first exactly one load is in flight, and the two
    together send one request when none was in flight and none otherwise. *)
Theorem one_load_in_flight (es : list Event)
    (value1 value2 : option string) (now1 now2 : nat) :
  let s := run initial es in
  let s1 := step s (ClickAiGenerate value1 now1) in
  let s2 := step s1 (ClickAiGenerate value2 now2) in
  List.length (pending_loads s) <= 1
  /\ List.length (pending_loads s1) = 1
  /\ s2 = s1
  /\ List.length (issued s2)
     = List.length (issued s) + (if aiImageLoading s then 0 else 1).
Proof.
  intros s s1 s2.
  pose proof (invariant_reachable es) as Hs. fold s in Hs.
  pose proof (invariant_step s (ClickAiGenerate value1 now1) Hs) as Hs1.
  fold s1 in Hs1.
  assert (Hl1 : aiImageLoading s1 = true) by apply click_sets_loading.
  assert (Heq : s2 = s1).
  { unfold s2. cbn [step]. unfold ai_generate_onclick. now rewrite Hl1. }
  split; [now apply invariant_pending_le |].
  split; [destruct Hs1 as [H _]; now rewrite Hl1 in H |].
  split; [exact Heq |].
  rewrite Heq. apply click_issued.
Qed.

(** C7. A failed image load changes nothing the classifier reads: the
    textures, the material, the uniforms, the demo list and the demo index
    are what they were before the request, so the next frame shows the
    same pixels; the failure toast is shown and its timer hides it again.
    The rejection by itself changes none of these in any state. *)
Theorem failed_load_keeps_view (es : list Event)
    (value : option string) (now : nat) (t : R) :
  let s := run initial es in
  let s1 := step s (ClickAiGenerate value now) in
  let s2 := step s1 (LoadRejected 0) in
  pending_loads s2 = [] /\ aiImageLoading s2 = false
  /\ classifier_view s2 = classifier_view s
  /\ billboard_texture s2 = billboard_texture s
  /\ shader_uniforms s2 = shader_uniforms s
  /\ billboard_pixels (step s2 (AnimationFrame t))
     = billboard_pixels (step s (AnimationFrame t))
  /\ toast_text s2 = Some "AI generation failed — try again"%string
  /\ toast_opacity s2 = Some "1"%string
  /\ toast_opacity (step s2 ToastTimeout) = Some "0"%string
  /\ (forall (s' : State) (k : nat),
        classifier_view (step s' (LoadRejected k)) = classifier_view s').
Proof.
  intros s s1 s2.
  pose proof (invariant_reachable es) as Hs. fold s in Hs.
  pose proof (invariant_step s (ClickAiGenerate value now) Hs) as Hs1.
  fold s1 in Hs1.
  assert (Hl1 : aiImageLoading s1 = true) by apply click_sets_loading.
  destruct Hs1 as [Hlen _]. rewrite Hl1 in Hlen.
  destruct (pending_loads s1) as [| task [| task' rest]] eqn:Ep;
    try discriminate Hlen.
  assert (Hview : classifier_view s2 = classifier_view s).
  { unfold s2, s1. cbn [step]. now rewrite rejected_view, click_view. }
  assert (Hs2 : s2 = ai_generate_finally
                       (showToast "AI generation failed — try again"
                          { s1 with pending_loads ::= remove_nth 0 })).
  { unfold s2. cbn [step]. unfold ai_generate_rejected. now rewrite Ep. }
  split; [rewrite Hs2; unfold ai_generate_finally, showToast; state_simpl;
          now rewrite Ep |].
  split; [now rewrite Hs2 |].
  split; [exact Hview |].
  split.
  { unfold billboard_texture. unfold classifier_view in Hview.
    injection Hview as Htex Hmat _ _ _ _ _ _ _ _. now rewrite Htex, Hmat. }
  split; [now apply uniforms_of_view |].
  split; [cbn [step]; now apply frame_of_view |].
  rewrite Hs2. repeat split; try reflexivity.
  intros s' k. cbn [step]. apply rejected_view.
Qed.

(** C10. In every reachable state the demo index is a number below the
    length of the demo list, so [DEMOS[currentDemo]] is an entry of the list
    and the frame loop paints the canvas with its [draw]; next-demo moves
    the index to its successor modulo the length. *)
Theorem demo_index_in_bounds (es : list Event) (t : R) :
  let s := run initial es in
  exists (i : nat) (d : Demo),
    currentDemo s = Some i
    /\ i < List.length (DEMOS s)
    /\ DEMOS_at s = Some d
    /\ sourceCanvas (animate t s) = paint (draw d) t
    /\ currentDemo (step s ClickNextDemo)
       = Some ((i + 1) mod List.length (DEMOS s)).
Proof.
  intros s.
  destruct (invariant_reachable es) as [_ (i & Hi & Hlt)]. fold s in Hi, Hlt.
  destruct (nth_error_in_range (DEMOS s) i Hlt) as (d & Hd).
  exists i, d.
  assert (Hat : DEMOS_at s = Some d) by (unfold DEMOS_at; now rewrite Hi).
  repeat split; try assumption.
  - unfold animate, DEMOS_at in *. state_simpl. rewrite Hat.
    destruct (sourceTexture s); reflexivity.
  - cbn [step]. unfold next_demo_onclick. demo_name_frame. state_simpl.
    rewrite Hi. unfold js_mod.
    destruct (Nat.eqb_spec (List.length (DEMOS s)) 0); [lia | reflexivity].
Qed.

(** A successful load appends one entry drawing the loaded image and
    selects it. *)
Lemma resolved_appends (s : State) (k : nat) (img : Image) (task : AiTask) :
  nth_error (pending_loads s) k = Some task ->
  let s' := step s (LoadResolved k img) in
  exists n : string,
    DEMOS s' = DEMOS s ++ [mkDemo n (drawImage img)]
    /\ currentDemo s' = Some (List.length (DEMOS s))
    /\ billboard_texture s'
       = match videoMesh_material s with
         | material => CanvasTexture_ai img
         | MeshBasicMaterial map => map
         end.
Proof.
  intros Hk s'. unfold s'. cbn [step]. unfold ai_generate_resolved.
  rewrite Hk. eexists.
  unfold billboard_texture, ai_generate_finally, showToast. state_simpl.
  demo_name_frame. state_simpl.
  rewrite length_snoc. repeat split.
Qed.

(** ** AR camera mode *)

Lemma stop_tracks_stopped (stream : MediaStream) (live : list Track) (t : Track) :
  In t stream -> ~ In t (stop_tracks stream live).
Proof.
  intros Hin Hlive. unfold stop_tracks in Hlive.
  apply filter_In in Hlive. destruct Hlive as [_ Hneg].
  apply negb_true_iff in Hneg.
  assert (Hex : existsb (Nat.eqb t) stream = true).
  { apply existsb_exists. exists t. split; [exact Hin | apply Nat.eqb_refl]. }
  congruence.
Qed.

Lemma stop_tracks_others (stream : MediaStream) (live : list Track) (t : Track) :
  In t live -> ~ In t stream -> In t (stop_tracks stream live).
Proof.
  intros Hlive Hnot. unfold stop_tracks. apply filter_In. split; [exact Hlive |].
  apply negb_true_iff. destruct (existsb (Nat.eqb t) stream) eqn:E; [| reflexivity].
  apply existsb_exists in E. destruct E as (x & Hx & Heq).
  apply Nat.eqb_eq in Heq. subst x. contradiction.
Qed.

(** What the stop branch does, in any state with AR mode on: every track of
    the stream stored in [window._arStream] is stopped and the reference is
    cleared, no capture request is made, and nothing the classifier reads
    is touched (the billboard keeps the producer it had).  Tracks of any
    other stream stay as they were. *)
Lemma ar_stop_effect (s : State) (stream : MediaStream) :
  ar_camera_active s = true ->
  window_arStream s = Some stream ->
  let s' := ar_camera_onclick s in
  window_arStream s' = None
  /\ ar_camera_active s' = false
  /\ (forall t, In t stream -> ~ In t (live_tracks s'))
  /\ (forall t, In t (live_tracks s) -> ~ In t stream -> In t (live_tracks s'))
  /\ pending_getUserMedia s' = pending_getUserMedia s
  /\ classifier_view s' = classifier_view s
  /\ billboard_texture s' = billboard_texture s.
Proof.
  intros Hactive Hstream s'. unfold s', ar_camera_onclick, showToast.
  rewrite Hactive, Hstream. state_simpl.
  repeat split.
  - intros t Ht. now apply stop_tracks_stopped.
  - intros t Hlive Hnot. now apply stop_tracks_others.
Qed.

(** One start, granted and playing, then stop: the camera is released and
    nothing is pending. *)
Lemma single_start_stop_releases :
  let s := run initial (single_start ++ [ClickArCamera]) in
  ar_camera_active (run initial single_start) = true
  /\ ar_camera_active s = false
  /\ window_arStream s = None
  /\ live_tracks s = []
  /\ pending_getUserMedia s = 0
  /\ pending_play s = 0.
Proof. repeat split; reflexivity. Qed.

(** C8, on the code.  The AR button pressed twice before the first
    [getUserMedia] settles starts two captures.  When both are granted,
    switching AR mode off stops the tracks of the second stream only: the
    stored reference is cleared and AR mode is off, yet track 1 still
    captures and its video element is still in the document.  When AR mode is switched off after the first is granted,
    the second request is still pending, and granting it turns the camera
    on again with AR mode reported off. *)
Theorem double_start_leaves_camera_on :
  let before := run initial (removelast double_start_then_stop) in
  let s := run initial double_start_then_stop in
  let early := run initial double_start_stop_early in
  ar_camera_active before = true
  /\ window_arStream before = Some [2]
  /\ live_tracks before = [1; 2]
  /\ ar_camera_active s = false
  /\ window_arStream s = None
  /\ live_tracks s = [1]
  /\ ar_videos s = [[1]]
  /\ ar_camera_active early = false
  /\ window_arStream early = None
  /\ pending_getUserMedia early = 1
  /\ live_tracks (step early (GetUserMediaResolved [2])) = [2].
Proof. repeat split; reflexivity. Qed.

End AppProofs.

(** * Further properties of the shader *)

Module ShaderExtras.

Import Shader ShaderProofs.
Local Open Scope R_scope.

Lemma spec_pow15_zero_iff (x : R) : 0 <= x -> (spec_pow15 x = 0 <-> x = 0).
Proof.
  intros Hx. unfold spec_pow15. split.
  - intros H. destruct (Rmult_integral _ _ H) as [H0 | H0]; [exact H0 |].
    now apply sqrt_eq_0.
  - intros ->. ring.
Qed.

Lemma spec_pow15_one_iff (x : R) : 0 <= x <= 1 -> (spec_pow15 x = 1 <-> x = 1).
Proof.
  intros [H0 H1]. unfold spec_pow15. split.
  - intros H.
    assert (Hs0 : 0 <= sqrt x) by apply sqrt_pos.
    assert (Hs1 : sqrt x <= 1) by (rewrite <- sqrt_1; now apply sqrt_le_1_alt).
    nra.
  - intros ->. rewrite sqrt_1. ring.
Qed.

Lemma clamp_zero_iff (x : R) : clamp x 0 1 = 0 <-> x <= 0.
Proof.
  unfold clamp, Rmin, Rmax.
  destruct (Rle_dec x 0); destruct (Rle_dec _ 1); lra.
Qed.

Lemma clamp_one_iff (x : R) : clamp x 0 1 = 1 <-> 1 <= x.
Proof.
  unfold clamp, Rmin, Rmax.
  destruct (Rle_dec x 0); destruct (Rle_dec _ 1); lra.
Qed.

Lemma clamp_id (x : R) : 0 <= x <= 1 -> clamp x 0 1 = x.
Proof.
  intros Hx. unfold clamp, Rmin, Rmax.
  destruct (Rle_dec x 0); destruct (Rle_dec _ 1); lra.
Qed.

Lemma quotient_nonpos (x y : R) : 0 < y -> (x / y <= 0 <-> x <= 0).
Proof.
  intros Hy. assert (Hi : 0 < / y) by now apply Rinv_0_lt_compat.
  unfold Rdiv. split; intros H.
  - assert (x = x * / y * y) as -> by (field; lra). nra.
  - nra.
Qed.

Lemma quotient_ge_one (x y : R) : 0 < y -> (1 <= x / y <-> y <= x).
Proof.
  intros Hy. assert (Hi : 0 < / y) by now apply Rinv_0_lt_compat.
  unfold Rdiv. split; intros H.
  - assert (x = x * / y * y) as -> by (field; lra). nra.
  - assert (1 = y * / y) as -> by (field; lra). nra.
Qed.

(** The chroma coordinates do not move when the same amount is added to
    the three channels: the coefficients of each row sum to zero. *)
Lemma RGBtoUV_add_gray (c : vec3) (k : R) : RGBtoUV (add_gray c k) = RGBtoUV c.
Proof. unfold RGBtoUV, add_gray. cbn [r g b]. f_equal; lra. Qed.

(** X1. Adding the same amount to R, G and B of a texel leaves its chroma
    coordinates, its chroma distance to the key and its output alpha
    unchanged, for any uniforms. *)
Theorem alpha_ignores_gray_offset (u : Uniforms) (px : vec4) (k a' : R) :
  let px' := mkvec4 (add_gray (rgb px) k) a' in
  RGBtoUV (rgb px') = RGBtoUV (rgb px)
  /\ chromaDistance u px' = chromaDistance u px
  /\ out_a (main u px') = out_a (main u px).
Proof.
  intros px'. unfold px'. cbn [rgb].
  split; [apply RGBtoUV_add_gray |].
  split.
  - unfold chromaDistance. cbn [rgb]. now rewrite RGBtoUV_add_gray.
  - unfold main. cbn [rgb out_a]. now rewrite RGBtoUV_add_gray.
Qed.

Lemma RGBtoUV_unit (c : vec3) :
  in_unit c -> 0 <= vx (RGBtoUV c) <= 1 /\ 0 <= vy (RGBtoUV c) <= 1.
Proof.
  intros (Hr & Hg & Hb). unfold RGBtoUV. cbn [vx vy]. lra.
Qed.

(** X2. Colours with channels in [0,1] have both chroma coordinates in
    [0,1], so a texel and a key colour in range are at chroma distance at
    most [sqrt 2]. *)
Theorem chroma_distance_bounded (u : Uniforms) (px : vec4) :
  in_unit (rgb px) -> in_unit (keyColor u) ->
  0 <= vx (RGBtoUV (rgb px)) <= 1
  /\ 0 <= vy (RGBtoUV (rgb px)) <= 1
  /\ 0 <= chromaDistance u px <= sqrt 2.
Proof.
  intros Hpx Hkey.
  destruct (RGBtoUV_unit _ Hpx) as [Hx Hy].
  destruct (RGBtoUV_unit _ Hkey) as [Hkx Hky].
  split; [exact Hx |]. split; [exact Hy |].
  unfold chromaDistance, distance. split; [apply sqrt_pos |].
  apply sqrt_le_1_alt. nra.
Qed.

Lemma chroma_distance_bounded_witness :
  0 <= chromaDistance app_uniforms gray <= sqrt 2.
Proof.
  apply (chroma_distance_bounded app_uniforms gray);
    unfold in_unit; cbn; lra.
Defined.

(** X3. For positive smoothness the output alpha is 0 exactly when the
    chroma distance is at most the similarity, and 1 exactly when it is at
    least similarity + smoothness. *)
Theorem alpha_zero_one_iff (u : Uniforms) (px : vec4) :
  0 < smoothness u ->
  (out_a (main u px) = Some 0 <-> chromaDistance u px <= similarity u)
  /\ (out_a (main u px) = Some 1
      <-> similarity u + smoothness u <= chromaDistance u px).
Proof.
  intros Hs. rewrite main_alpha by lra. unfold baseMask.
  pose proof (clamp_bounds ((chromaDistance u px - similarity u) / smoothness u))
    as Hc.
  set (q := (chromaDistance u px - similarity u) / smoothness u) in *.
  pose proof (spec_pow15_zero_iff _ (proj1 Hc)) as Hz.
  pose proof (spec_pow15_one_iff _ Hc) as Ho.
  pose proof (clamp_zero_iff q) as Hcz.
  pose proof (clamp_one_iff q) as Hco.
  pose proof (quotient_nonpos (chromaDistance u px - similarity u) _ Hs) as Hqz.
  pose proof (quotient_ge_one (chromaDistance u px - similarity u) _ Hs) as Hqo.
  fold q in Hqz, Hqo.
  split; split.
  - intros H. injection H as H. apply Hz, Hcz, Hqz in H. lra.
  - intros H. f_equal. apply Hz, Hcz, Hqz. lra.
  - intros H. injection H as H. apply Ho, Hco, Hqo in H. lra.
  - intros H. f_equal. apply Ho, Hco, Hqo. lra.
Qed.

Lemma alpha_zero_one_iff_witness :
  (out_a (main app_uniforms green) = Some 0
   <-> chromaDistance app_uniforms green <= similarity app_uniforms)
  /\ (out_a (main app_uniforms green) = Some 1
      <-> similarity app_uniforms + smoothness app_uniforms
          <= chromaDistance app_uniforms green).
Proof.
  apply (alpha_zero_one_iff app_uniforms green). cbn. lra.
Defined.

Lemma clamp_quotient_antitone (x x' y y' : R) :
  0 < y -> y <= y' -> x' <= x ->
  clamp (x' / y') 0 1 <= clamp (x / y) 0 1.
Proof.
  intros Hy Hyy Hxx.
  destruct (Rle_dec x 0) as [Hneg | Hpos].
  - rewrite (clamp_low (x' / y')), (clamp_low (x / y)); [lra | |].
    + apply quotient_nonpos; lra.
    + apply quotient_nonpos; lra.
  - apply clamp_mono.
    apply Rle_trans with (x / y').
    + unfold Rdiv. apply Rmult_le_compat_r; [| exact Hxx].
      left. apply Rinv_0_lt_compat. lra.
    + unfold Rdiv. apply Rmult_le_compat_l; [lra |].
      apply Rinv_le_contravar; assumption.
Qed.

(** X4. Moving the similarity slider or the smoothness slider up never
    makes a texel more opaque: with the key colour fixed, a larger
    similarity and a larger (positive) smoothness give an alpha that is at
    most the one before. *)
Theorem sliders_up_alpha_down (key : vec3) (sim sim' smooth smooth' sp sp' : R)
    (px : vec4) :
  0 < smooth -> smooth <= smooth' -> sim <= sim' ->
  exists a1 a2 : R,
    out_a (main (mkUniforms key sim smooth sp) px) = Some a1
    /\ out_a (main (mkUniforms key sim' smooth' sp') px) = Some a2
    /\ a2 <= a1.
Proof.
  intros Hs Hss Hsim.
  rewrite !main_alpha by (cbn; lra).
  do 2 eexists. split; [reflexivity |]. split; [reflexivity |].
  apply spec_pow15_mono; [apply clamp_bounds |].
  unfold baseMask, chromaDistance. cbn [similarity smoothness keyColor].
  apply clamp_quotient_antitone; lra.
Qed.

Lemma sliders_up_alpha_down_witness :
  exists a1 a2 : R,
    out_a (main (mkUniforms (mkvec3 0 1 0) 0.3 0.1 0.15) red) = Some a1
    /\ out_a (main (mkUniforms (mkvec3 0 1 0) 0.4 0.2 0.15) red) = Some a2
    /\ a2 <= a1.
Proof.
  apply (sliders_up_alpha_down (mkvec3 0 1 0) 0.3 0.4 0.1 0.2 0.15 0.15 red); lra.
Defined.

Lemma mix_one (x y : vec3) : mix x y 1 = y.
Proof. unfold mix. destruct y as [yr yg yb]. cbn [r g b]. f_equal; ring. Qed.

Lemma mix_zero (x y : vec3) : mix x y 0 = x.
Proof. unfold mix. destruct x as [xr xg xb]. cbn [r g b]. f_equal; ring. Qed.

(** X5. A texel whose chroma distance is at least similarity + spill, with
    positive spill, keeps its colour exactly: spill suppression does not
    touch it. *)
Theorem far_pixel_keeps_colour (u : Uniforms) (px : vec4) :
  0 < spill u ->
  similarity u + spill u <= chromaDistance u px ->
  out_rgb (main u px) = Some (rgb px).
Proof.
  intros Hsp Hfar. rewrite main_color by lra.
  rewrite (clamp_high (baseMask u px / spill u)).
  - unfold spec_pow15. rewrite sqrt_1, Rmult_1_l. now rewrite mix_one.
  - apply quotient_ge_one; [assumption |]. unfold baseMask. lra.
Qed.

Lemma far_pixel_keeps_colour_witness :
  out_rgb (main app_uniforms red) = Some (rgb red).
Proof.
  apply (far_pixel_keeps_colour app_uniforms red).
  - cbn. lra.
  - pose proof (red_green_distance 0.3 0.1 0.15) as H.
    fold app_uniforms in H. cbn [similarity spill app_uniforms]. lra.
Defined.

(** X6. A texel within the similarity of the key colour, with positive
    spill, comes out fully desaturated: its three output channels are its
    clamped luma. *)
Theorem keyed_pixel_desaturated (u : Uniforms) (px : vec4) :
  0 < spill u ->
  chromaDistance u px <= similarity u ->
  out_rgb (main u px) = Some (vec3_of (clamp (luma (rgb px)) 0 1)).
Proof.
  intros Hsp Hnear. rewrite main_color by lra.
  rewrite (clamp_low (baseMask u px / spill u)).
  - unfold spec_pow15. rewrite Rmult_0_l. now rewrite mix_zero.
  - apply quotient_nonpos; [assumption |]. unfold baseMask. lra.
Qed.

Lemma keyed_pixel_desaturated_witness :
  out_rgb (main app_uniforms green)
  = Some (vec3_of (clamp (luma (rgb green)) 0 1)).
Proof.
  apply (keyed_pixel_desaturated app_uniforms green).
  - cbn. lra.
  - rewrite (chromaDistance_key app_uniforms green eq_refl). cbn. lra.
Defined.

(** The luma of a gray is the gray: the three weights sum to one. *)
Lemma luma_vec3_of (y : R) : luma (vec3_of y) = y.
Proof. unfold luma, vec3_of. cbn [r g b]. lra. Qed.

Lemma luma_mix (x y : vec3) (t : R) :
  luma (mix x y t) = luma x * (1 - t) + luma y * t.
Proof. unfold luma, mix. cbn [r g b]. ring. Qed.

Lemma luma_unit (c : vec3) : in_unit c -> 0 <= luma c <= 1.
Proof. intros (Hr & Hg & Hb). unfold luma. lra. Qed.

(** X7. Spill suppression preserves luma: for a texel with channels in
    [0,1] and a non-zero spill, the output colour is defined and has the
    luma of the input colour, whatever the other uniforms. *)
Theorem luma_preserved (u : Uniforms) (px : vec4) :
  in_unit (rgb px) -> spill u <> 0 ->
  exists c : vec3, out_rgb (main u px) = Some c /\ luma c = luma (rgb px).
Proof.
  intros Hpx Hsp. rewrite main_color by assumption.
  eexists. split; [reflexivity |].
  fold (luma (rgb px)).
  rewrite luma_mix, luma_vec3_of, (clamp_id (luma (rgb px))) by now apply luma_unit.
  ring.
Qed.

Lemma luma_preserved_witness :
  exists c : vec3,
    out_rgb (main app_uniforms red) = Some c /\ luma c = luma (rgb red).
Proof.
  apply (luma_preserved app_uniforms red); [unfold in_unit |]; cbn; lra.
Defined.

(** X8. A gray texel (equal channels in [0,1]) keeps its colour for every
    key colour, similarity and smoothness and every non-zero spill. *)
Theorem gray_keeps_colour (u : Uniforms) (k a0 : R) :
  0 <= k <= 1 -> spill u <> 0 ->
  out_rgb (main u (mkvec4 (vec3_of k) a0)) = Some (vec3_of k).
Proof.
  intros Hk Hsp. rewrite main_color by assumption. f_equal.
  cbn [rgb]. fold (luma (vec3_of k)).
  rewrite luma_vec3_of, clamp_id by assumption.
  unfold mix, vec3_of. cbn [r g b]. f_equal; ring.
Qed.

Lemma gray_keeps_colour_witness :
  out_rgb (main app_uniforms gray) = Some (rgb gray).
Proof.
  apply (gray_keeps_colour app_uniforms 0.5 0.5); cbn; lra.
Defined.

End ShaderExtras.

(** * Further properties of the page *)

Module AppExtras.

Import App AppProofs.

Ltac unfold_handlers :=
  unfold toggle_chroma_onclick, next_demo_onclick, similarity_oninput,
    smoothness_oninput, ai_generate_onclick, ai_generate_resolved,
    ai_generate_rejected, ar_camera_onclick, ar_camera_granted,
    ar_camera_denied, ar_camera_playing, ar_camera_play_failed, animate,
    toast_timeout, generateAIScene, ai_generate_finally, showToast,
    show_demo_name, DEMOS_at.

(** Case analysis on the innermost scrutinee left in the goal. *)
Ltac break_match :=
  match goal with
  | |- context [match ?x with _ => _ end] =>
      lazymatch x with
      | context [match _ with _ => _ end] => fail
      | _ => destruct x eqn:?
      end
  end.

Ltac step_cases := unfold_handlers; repeat (state_simpl; break_match); state_simpl.

(** ** References that move together *)

Lemma coherent_initial : coherent initial.
Proof.
  unfold coherent. cbn.
  repeat split; try reflexivity; try discriminate.
Qed.

Lemma coherent_step (s : State) (e : Event) : coherent s -> coherent (step s e).
Proof.
  unfold coherent.
  intros (Htex & Hprev & Hon & Hoff & Hgrid & Hclass & Htoast & Hidx).
  destruct e; cbn [step]; step_cases.
  all: repeat split; intros.
  all: try (exact Htex || exact Hprev || exact Hgrid || exact Hclass || exact Hidx).
  all: solve [auto | eauto | discriminate | congruence
              | intuition discriminate
              | rewrite length_app; cbn [List.length]; lia ].
Qed.

Lemma coherent_run (es : list Event) (s : State) :
  coherent s -> coherent (run s es).
Proof.
  revert s. induction es as [| e es IH]; intros s Hs; cbn.
  - exact Hs.
  - apply IH, coherent_step, Hs.
Qed.

Lemma coherent_reachable (es : list Event) : coherent (run initial es).
Proof. apply coherent_run, coherent_initial. Qed.

(** X9. In every reachable state the shader's texture uniform, the
    preview's map and [sourceTexture] are one and the same texture. *)
Theorem textures_stay_equal (es : list Event) :
  let s := run initial es in
  uniforms_tex s = sourceTexture s /\ preview_map s = sourceTexture s.
Proof.
  intros s. destruct (coherent_reachable es) as (H1 & H2 & _). now split.
Qed.

(** X10. In every reachable state the billboard carries the chroma-key
    material exactly when [chromaKeyEnabled] is set, and then samples
    [sourceTexture]; otherwise it carries a basic material. *)
Theorem chroma_flag_matches_material (es : list Event) :
  let s := run initial es in
  (chromaKeyEnabled s = true <-> videoMesh_material s = material)
  /\ (chromaKeyEnabled s = true -> billboard_texture s = sourceTexture s)
  /\ (chromaKeyEnabled s = false ->
      exists map, videoMesh_material s = MeshBasicMaterial map).
Proof.
  intros s.
  destruct (coherent_reachable es) as (Htex & _ & Hon & Hoff & _).
  fold s in Htex, Hon, Hoff.
  split; [split |].
  - exact Hon.
  - intros Hm. destruct (chromaKeyEnabled s) eqn:E; [reflexivity |].
    destruct (Hoff eq_refl) as (m & Hb). congruence.
  - split; [| exact Hoff].
    intros Hc. unfold billboard_texture. now rewrite (Hon Hc).
Qed.

Lemma chroma_flag_matches_material_witness :
  chromaKeyEnabled (run initial [ClickToggleChroma]) = false
  /\ exists map,
       videoMesh_material (run initial [ClickToggleChroma])
       = MeshBasicMaterial map.
Proof.
  split; [reflexivity |].
  apply (chroma_flag_matches_material [ClickToggleChroma]). reflexivity.
Defined.


(** X12. In every reachable state the toast is shown exactly while its hide
    timer is pending, and the timer firing hides it and leaves no timer:
    no toast stays on screen for good. *)
Theorem toast_is_transient (es : list Event) :
  let s := run initial es in
  (toast_timer s = true <-> toast_opacity s = Some "1"%string)
  /\ toast_opacity (step s ToastTimeout) <> Some "1"%string
  /\ toast_timer (step s ToastTimeout) = false.
Proof.
  intros s.
  destruct (coherent_reachable es) as (_ & _ & _ & _ & _ & _ & Ht & _).
  fold s in Ht. split; [exact Ht |].
  cbn [step]. unfold toast_timeout.
  destruct (toast_timer s) eqn:E; state_simpl.
  - split; [discriminate | reflexivity].
  - split; [| exact E]. intros H. apply Ht in H. discriminate.
Qed.

Lemma toast_is_transient_witness :
  toast_opacity (run initial [ClickArCamera; GetUserMediaRejected])
  = Some "1"%string.
Proof.
  apply (toast_is_transient [ClickArCamera; GetUserMediaRejected]).
  reflexivity.
Defined.

(** In every reachable state [aiPromptIndex] is the number of image
    requests sent so far. *)
Lemma prompt_index_counts_requests (es : list Event) :
  let s := run initial es in
  aiPromptIndex s = List.length (issued s).
Proof.
  intros s. now destruct (coherent_reachable es) as (_ & _ & _ & _ & _ & _ & _ & H).
Qed.

(** ** The demo list *)








(** ** After an AI scene has loaded *)

Lemma shows_ai_image_pixels (img : Image) (s : State) :
  shows_ai_image img s -> billboard_pixels s = Still img.
Proof.
  intros (_ & Htex & [Hm | Hm]);
    unfold billboard_pixels, billboard_texture; rewrite Hm, ?Htex; reflexivity.
Qed.

Lemma shows_ai_image_step (img : Image) (s : State) (e : Event) :
  is_LoadResolved e = false ->
  shows_ai_image img s -> shows_ai_image img (step s e).
Proof.
  unfold shows_ai_image. intros He (Hsrc & Htex & Hmat).
  destruct e; try discriminate He; cbn [step]; step_cases;
    repeat split; try assumption; try congruence; auto.
  all: rewrite Hsrc; auto.
Qed.

Lemma shows_ai_image_run (img : Image) (es : list Event) (s : State) :
  forallb (fun e => negb (is_LoadResolved e)) es = true ->
  shows_ai_image img s -> shows_ai_image img (run s es).
Proof.
  revert s. induction es as [| e es IH]; intros s Hes Hs; cbn in *.
  - exact Hs.
  - apply andb_true_iff in Hes. destruct Hes as [He Hes].
    apply negb_true_iff in He.
    apply IH; [exact Hes |]. now apply shows_ai_image_step.
Qed.

(** X14. Once an AI image has loaded while the chroma key is on, the
    billboard shows that image and nothing else until another image loads:
    next-demo, animation frames, the toggle, the sliders and AR mode do not
    change its pixels. *)
Theorem ai_scene_stays_on_billboard (s : State) (k : nat) (img : Image)
    (task : AiTask) (es : list Event) :
  nth_error (pending_loads s) k = Some task ->
  videoMesh_material s = material ->
  forallb (fun e => negb (is_LoadResolved e)) es = true ->
  billboard_pixels (run (step s (LoadResolved k img)) es) = Still img.
Proof.
  intros Hk Hm Hes. apply shows_ai_image_pixels, shows_ai_image_run; [exact Hes |].
  cbn [step]. unfold ai_generate_resolved. rewrite Hk.
  unfold shows_ai_image, ai_generate_finally, showToast. state_simpl.
  rewrite !(show_demo_name_frame videoMesh_material),
    !(show_demo_name_frame uniforms_tex) by (intros; reflexivity).
  state_simpl. auto.
Qed.

Lemma ai_scene_stays_on_billboard_witness :
  billboard_pixels
    (run (step (run initial [ClickAiGenerate None 1]) (LoadResolved 0 7))
         [ClickNextDemo; AnimationFrame 1%R; ClickToggleChroma;
          AnimationFrame 2%R])
  = Still 7.
Proof.
  apply (ai_scene_stays_on_billboard (run initial [ClickAiGenerate None 1]) 0 7
           (mkAiTask None
              (mkRequest
                 "holographic dancer performing in neon lights dark stage, centered subject, green screen background, chroma key ready, high contrast"
                 1)));
    reflexivity.
Defined.

(** ** AR mode *)

(** X15. No event of the AR camera handler (click, grant, denial, [play()]
    resolving or rejecting) changes anything the classifier or the frame
    loop reads: AR mode never changes what the billboard shows. *)
Theorem ar_events_keep_view (s : State) (e : Event) :
  is_ar_event e = true ->
  classifier_view (step s e) = classifier_view s
  /\ billboard_pixels (step s e) = billboard_pixels s.
Proof.
  intros He.
  destruct e; try discriminate He; cbn [step];
    unfold classifier_view, billboard_pixels, billboard_texture, texture_pixels;
    step_cases; split; reflexivity.
Qed.

Lemma ar_events_keep_view_witness :
  classifier_view (step (run initial single_start) ClickArCamera)
  = classifier_view (run initial single_start).
Proof.
  apply (ar_events_keep_view (run initial single_start) ClickArCamera).
  reflexivity.
Defined.

(** X16. A camera request that is denied leaves AR mode as it was: from a
    state with AR mode off, the click followed by the rejection leaves the
    mode off, the stored stream, the live tracks and the pending requests
    unchanged, and shows the toast [Camera access denied]. *)
Theorem camera_denied_recovers (s : State) :
  ar_camera_active s = false ->
  let s' := step (step s ClickArCamera) GetUserMediaRejected in
  ar_camera_active s' = false
  /\ window_arStream s' = window_arStream s
  /\ live_tracks s' = live_tracks s
  /\ pending_getUserMedia s' = pending_getUserMedia s
  /\ pending_play s' = pending_play s
  /\ grid_visible s' = grid_visible s
  /\ classifier_view s' = classifier_view s
  /\ toast_text s' = Some "Camera access denied"%string
  /\ toast_opacity s' = Some "1"%string.
Proof.
  intros Hoff s'. unfold s'. cbn [step].
  unfold ar_camera_onclick. rewrite Hoff.
  unfold ar_camera_denied, showToast. state_simpl.
  repeat split; first [exact Hoff | reflexivity].
Qed.

Lemma camera_denied_recovers_witness :
  let s' := step (step initial ClickArCamera) GetUserMediaRejected in
  ar_camera_active s' = false /\ live_tracks s' = []
  /\ toast_text s' = Some "Camera access denied"%string.
Proof.
  destruct (camera_denied_recovers initial eq_refl)
    as (H1 & _ & H3 & _ & _ & _ & _ & H8 & _).
  repeat split; assumption.
Defined.

Lemma stop_tracks_self (stream : MediaStream) : stop_tracks stream stream = [].
Proof.
  unfold stop_tracks.
  assert (H : forall l, incl l stream ->
    filter (fun t => negb (existsb (Nat.eqb t) stream)) l = []).
  { induction l as [| t l IH]; intros Hincl; [reflexivity |].
    cbn [filter].
    assert (Hex : existsb (Nat.eqb t) stream = true).
    { apply existsb_exists. exists t. split; [| apply Nat.eqb_refl].
      apply Hincl. now left. }
    rewrite Hex. cbn [negb]. apply IH.
    intros x Hx. apply Hincl. now right. }
  apply H, incl_refl.
Qed.

Lemma ar_settled_initial : ar_settled initial.
Proof. unfold ar_settled. cbn. repeat split; try lia; discriminate. Qed.

Lemma ar_settled_step (s : State) (e : Event) :
  ar_patient s e = true -> ar_settled s -> ar_settled (step s e).
Proof.
  unfold ar_settled. intros He (Hlive & Hpend & Hon & Hoff).
  destruct e; try discriminate He; cbn [step ar_patient] in *;
    try (step_cases; solve [intuition (auto; try lia; try congruence)]).
  - (* the AR button, nothing pending *)
    apply andb_true_iff in He. destruct He as [Hg Hp].
    apply Nat.eqb_eq in Hg, Hp.
    unfold ar_camera_onclick, showToast.
    destruct (ar_camera_active s) eqn:Ea.
    + destruct (window_arStream s) as [stream |] eqn:Es; state_simpl.
      * rewrite Hlive, stop_tracks_self.
        repeat split; try lia; try discriminate; auto.
      * rewrite Es. repeat split; try lia; try discriminate; auto.
    + state_simpl. pose proof (Hoff eq_refl Hp) as Hnone.
      rewrite Hnone in *. rewrite Hg, Hp.
      repeat split; try lia; try discriminate; auto; congruence.
  - (* getUserMedia resolves *)
    unfold ar_camera_granted.
    destruct (pending_getUserMedia s) as [| n] eqn:Eg;
      [rewrite Eg; solve [intuition (auto; lia)] |].
    assert (Hp : pending_play s = 0) by lia.
    assert (Ha : ar_camera_active s = false).
    { destruct (ar_camera_active s); [| reflexivity].
      destruct (Hon eq_refl). discriminate. }
    state_simpl. rewrite Hlive, (Hoff Ha Hp), Hp, Ha.
    repeat split; try lia; try discriminate.
Qed.

Lemma ar_settled_run (es : list Event) (s : State) :
  all_patient s es = true -> ar_settled s -> ar_settled (run s es).
Proof.
  revert s. induction es as [| e es IH]; intros s Hes Hs; cbn in *.
  - exact Hs.
  - apply andb_true_iff in Hes. destruct Hes as [He Hes].
    apply IH; [exact Hes |]. now apply ar_settled_step.
Qed.

(** X17. When the AR button is never pressed while a [getUserMedia] or a
    [play()] of an earlier press is pending, and [play()] never rejects,
    the tracks capturing are at all times those of the stored stream, and
    switching AR mode off leaves no track capturing, no stored stream and
    no request pending. *)
Theorem patient_ar_releases_camera (es : list Event) :
  all_patient initial es = true ->
  let s := run initial es in
  live_tracks s = stored_tracks s
  /\ (ar_camera_active s = true ->
      let s' := step s ClickArCamera in
      ar_camera_active s' = false
      /\ live_tracks s' = []
      /\ window_arStream s' = None
      /\ pending_getUserMedia s' = 0
      /\ pending_play s' = 0).
Proof.
  intros Hes s.
  pose proof (ar_settled_run es initial Hes ar_settled_initial) as Hs.
  fold s in Hs. destruct Hs as (Hlive & Hpend & Hon & Hoff).
  split; [exact Hlive |].
  intros Ha. destruct (Hon Ha) as [Hg Hp].
  cbn [step]. unfold ar_camera_onclick, showToast. rewrite Ha.
  destruct (window_arStream s) as [stream |] eqn:Es; state_simpl.
  - rewrite Hlive, stop_tracks_self. repeat split; assumption.
  - rewrite Es. repeat split; assumption.
Qed.

Lemma patient_ar_releases_camera_witness :
  all_patient initial single_start = true
  /\ live_tracks (run initial single_start) = [1; 2]
  /\ live_tracks (step (run initial single_start) ClickArCamera) = [].
Proof.
  destruct (patient_ar_releases_camera single_start eq_refl) as [_ H].
  split; [reflexivity |]. split; [reflexivity |].
  now destruct (H eq_refl) as (_ & H2 & _).
Defined.

(** ** The request URL *)

Local Open Scope string_scope.

(** A statement about every byte, settled by running through the 256. *)
Ltac all_bytes c :=
  destruct c as [b0 b1 b2 b3 b4 b5 b6 b7];
  destruct b0, b1, b2, b3, b4, b5, b6, b7;
  vm_compute; try reflexivity; try discriminate; auto.

Lemma unhex_hex_digits (c : ascii) :
  ascii_of_nat (16 * unhex (hex_digit (nat_of_ascii c / 16))
                + unhex (hex_digit (nat_of_ascii c mod 16))) = c.
Proof. all_bytes c. Qed.

Lemma unreserved_not_percent (c : ascii) :
  is_unreserved c = true -> Ascii.eqb c "%" = false.
Proof. all_bytes c. Qed.

Lemma hex_digits_unreserved (c : ascii) :
  is_unreserved (hex_digit (nat_of_ascii c / 16)) = true
  /\ is_unreserved (hex_digit (nat_of_ascii c mod 16)) = true.
Proof. all_bytes c. Qed.

Lemma percent_decode_plain (c : ascii) (x : string) :
  Ascii.eqb c "%" = false ->
  percent_decode (String c x) = String c (percent_decode x).
Proof.
  intros Hc. destruct x as [| h [| l rest]]; cbn [percent_decode];
    rewrite ?Hc; reflexivity.
Qed.

Lemma percent_decode_encode (x : string) :
  percent_decode (encodeURIComponent x) = x.
Proof.
  induction x as [| c x IH]; [reflexivity |].
  cbn [encodeURIComponent]. destruct (is_unreserved c) eqn:Hc.
  - cbn [append]. rewrite percent_decode_plain by now apply unreserved_not_percent.
    now rewrite IH.
  - unfold percent_encode. cbn [append percent_decode].
    rewrite Ascii.eqb_refl, unhex_hex_digits. now rewrite IH.
Qed.

(** X18. [encodeURIComponent] loses nothing: percent-decoding gives the
    prompt back, so two different prompts never get the same encoding. *)
Theorem encodeURIComponent_injective (x y : string) :
  percent_decode (encodeURIComponent x) = x
  /\ (encodeURIComponent x = encodeURIComponent y -> x = y).
Proof.
  split; [apply percent_decode_encode |].
  intros H. rewrite <- (percent_decode_encode x), <- (percent_decode_encode y).
  now rewrite H.
Qed.

Lemma encodeURIComponent_injective_witness :
  percent_decode (encodeURIComponent "a cat & a dog?") = "a cat & a dog?"
  /\ encodeURIComponent "a cat & a dog?" = "a%20cat%20%26%20a%20dog%3F".
Proof.
  split; [apply (encodeURIComponent_injective "a cat & a dog?" "") | reflexivity].
Defined.

Lemma occurs_app (c : ascii) (x y : string) :
  occurs c (x ++ y) = occurs c x || occurs c y.
Proof.
  induction x as [| c' x IH]; [reflexivity |].
  cbn [append occurs]. rewrite IH. apply orb_assoc.
Qed.

Lemma occurs_encoded (c : ascii) (x : string) :
  occurs c (encodeURIComponent x) = true ->
  is_unreserved c = true \/ c = "%"%char.
Proof.
  induction x as [| c' x IH]; [discriminate |].
  cbn [encodeURIComponent]. rewrite occurs_app. intros H.
  apply orb_true_iff in H. destruct H as [H | H]; [| now apply IH].
  destruct (is_unreserved c') eqn:Hc'.
  - cbn [occurs] in H. rewrite orb_false_r in H.
    apply Ascii.eqb_eq in H. subst c'. now left.
  - unfold percent_encode in H. cbn [occurs] in H.
    destruct (hex_digits_unreserved c') as [Hh Hl].
    repeat (apply orb_true_iff in H; destruct H as [H | H]);
      try discriminate H; apply Ascii.eqb_eq in H; subst c; auto.
Qed.

(** X19. The encoded prompt consists of unreserved characters and [%] only;
    none of [? & # / = +] or a space occurs in it, so the prompt cannot
    end the path or add a query parameter of the request URL. *)
Theorem encoded_prompt_is_url_safe (x : string) :
  (forall c, occurs c (encodeURIComponent x) = true ->
             is_unreserved c = true \/ c = "%"%char)
  /\ occurs "?" (encodeURIComponent x) = false
  /\ occurs "&" (encodeURIComponent x) = false
  /\ occurs "#" (encodeURIComponent x) = false
  /\ occurs "/" (encodeURIComponent x) = false
  /\ occurs "=" (encodeURIComponent x) = false
  /\ occurs "+" (encodeURIComponent x) = false
  /\ occurs " " (encodeURIComponent x) = false.
Proof.
  split; [intros c; apply occurs_encoded |].
  repeat split;
    match goal with
    | |- occurs ?c ?e = false =>
        destruct (occurs c e) eqn:E; [| reflexivity];
        destruct (occurs_encoded c x E) as [H | H]; discriminate H
    end.
Qed.

Lemma encoded_prompt_is_url_safe_witness :
  occurs "%" (encodeURIComponent "a b") = true
  /\ (is_unreserved "%" = true \/ "%"%char = "%"%char).
Proof.
  split; [reflexivity |].
  apply (encoded_prompt_is_url_safe "a b"). reflexivity.
Defined.

(** Two strings cut at the first occurrence of a character agree piece by
    piece. *)
Lemma split_at_first (c : ascii) (a1 a2 r1 r2 : string) :
  occurs c a1 = false -> occurs c a2 = false ->
  a1 ++ String c r1 = a2 ++ String c r2 -> a1 = a2 /\ r1 = r2.
Proof.
  revert a2. induction a1 as [| x a1 IH]; intros [| y a2] H1 H2 Heq;
    cbn [append occurs] in *.
  - injection Heq as Hr. now split.
  - injection Heq as Hc _. subst y. now rewrite Ascii.eqb_refl in H2.
  - injection Heq as Hc _. subst x. now rewrite Ascii.eqb_refl in H1.
  - injection Heq as Hc Heq. subst y.
    apply orb_false_iff in H1, H2.
    destruct (IH a2 (proj2 H1) (proj2 H2) Heq) as [-> ->]. now split.
Qed.

Lemma occurs_digits (c : ascii) (d : Decimal.uint) :
  occurs c (NilEmpty.string_of_uint d) = true ->
  (48 <=? nat_of_ascii c)%nat && (nat_of_ascii c <=? 57)%nat = true.
Proof.
  induction d; cbn [NilEmpty.string_of_uint occurs]; intros H;
    try discriminate H;
    (apply orb_true_iff in H; destruct H as [H | H]; [| now apply IHd]);
    apply Ascii.eqb_eq in H; subst c; reflexivity.
Qed.

Lemma decimal_no_ampersand (n : nat) : occurs "&" (decimal n) = false.
Proof.
  unfold decimal. destruct (occurs "&" _) eqn:E; [| reflexivity].
  apply occurs_digits in E. discriminate E.
Qed.

Lemma decimal_injective (n m : nat) : decimal n = decimal m -> n = m.
Proof.
  unfold decimal. intros H.
  assert (Hu : Nat.to_uint n = Nat.to_uint m).
  { pose proof (NilEmpty.usu (Nat.to_uint n)) as Hn.
    pose proof (NilEmpty.usu (Nat.to_uint m)) as Hm.
    rewrite H in Hn. congruence. }
  rewrite <- (Unsigned.of_to n), <- (Unsigned.of_to m). now rewrite Hu.
Qed.

Lemma append_inj_l (a x y : string) : a ++ x = a ++ y -> x = y.
Proof.
  induction a as [| c a IH]; cbn [append]; intros H; [exact H |].
  injection H as H. now apply IH.
Qed.

(** X20. The URL of a request determines the request: two requests with the
    same URL have the same prompt text and the same seed. *)
Theorem url_determines_request (rq1 rq2 : Request) :
  request_url rq1 = request_url rq2 -> rq1 = rq2.
Proof.
  unfold request_url. intros H.
  apply append_inj_l in H.
  change "?width=512&height=512&seed="
    with (String "?" "width=512&height=512&seed=") in H.
  cbn [append] in H.
  apply split_at_first in H.
  - destruct H as [He Hr].
    apply (append_inj_l "width=512&height=512&seed=") in Hr.
    change "&model=flux" with (String "&" "model=flux") in Hr.
    apply split_at_first in Hr; try apply decimal_no_ampersand.
    destruct Hr as [Hd _].
    apply decimal_injective in Hd.
    assert (Hp : req_prompt rq1 = req_prompt rq2).
    { rewrite <- (percent_decode_encode (req_prompt rq1)),
        <- (percent_decode_encode (req_prompt rq2)). now rewrite He. }
    destruct rq1, rq2. cbn in *. congruence.
  - destruct (occurs "?" (encodeURIComponent (req_prompt rq1))) eqn:E;
      [| reflexivity].
    destruct (occurs_encoded _ _ E) as [H' | H']; discriminate H'.
  - destruct (occurs "?" (encodeURIComponent (req_prompt rq2))) eqn:E;
      [| reflexivity].
    destruct (occurs_encoded _ _ E) as [H' | H']; discriminate H'.
Qed.

Lemma url_determines_request_witness :
  mkRequest "a cat" 42 = mkRequest "a cat" 42
  /\ request_url (mkRequest "a cat" 42)
     = "https://image.pollinations.ai/prompt/a%20cat?width=512&height=512&seed=42&model=flux".
Proof.
  split; [apply (url_determines_request _ _ eq_refl) | reflexivity].
Defined.

(** ** The prompts of the requests *)




End AppExtras.

(** * Properties of the canvas routines *)

Module CanvasProofs.

Import Canvas.
Local Open Scope R_scope.

(** ** The save stack and the transform *)

Lemma draw_commands_same_frame (d : App.DrawFn) (w h t : R) (ctx : Context) :
  same_frame ctx (exec (draw_commands d w h t) ctx).
Proof. destruct d; split; reflexivity. Qed.

Lemma draw_frames_same_frame (frames : list (App.DrawFn * R)) (ctx : Context) :
  same_frame ctx (draw_frames frames ctx).
Proof.
  revert ctx. induction frames as [| [d t] frames IH]; intros ctx.
  - split; reflexivity.
  - cbn [draw_frames fold_left fst snd].
    destruct (IH (exec (draw_commands d 512 512 t) ctx)) as [Ht Hs].
    destruct (draw_commands_same_frame d 512 512 t ctx) as [Ht' Hs'].
    split; [now rewrite <- Ht' | now rewrite <- Hs'].
Qed.

(** X22. Every draw routine, at any time and on any context, gives the
    context back with the transform and the save stack it found: each
    [save] is matched by a [restore] and every transform is undone.  So
    every frame of the animation starts with the identity transform and
    an empty save stack. *)
Theorem draw_restores_context :
  (forall (d : App.DrawFn) (w h t : R) (ctx : Context),
      let ctx' := exec (draw_commands d w h t) ctx in
      transform (current ctx') = transform (current ctx)
      /\ stack ctx' = stack ctx)
  /\ (forall frames : list (App.DrawFn * R),
        let ctx := draw_frames frames fresh in
        transform (current ctx) = identity /\ stack ctx = []).
Proof.
  split.
  - intros d w h t ctx. apply draw_commands_same_frame.
  - intros frames. apply (draw_frames_same_frame frames fresh).
Qed.

(** ** Arguments of [arc] *)

Lemma js_rem_bounds (x y : R) : 0 <= x -> 0 < y -> 0 <= js_rem x y < y.
Proof.
  intros Hx Hy. unfold js_rem.
  assert (Hq : 0 <= x / y).
  { unfold Rdiv. apply Rmult_le_pos; [exact Hx |].
    left. now apply Rinv_0_lt_compat. }
  destruct (Rle_dec 0 (x / y)) as [_ | Hn]; [| contradiction].
  destruct (base_Int_part (x / y)) as [Hlo Hhi].
  assert (Hxy : x = y * (x / y)) by (field; lra).
  set (k := IZR (Int_part (x / y))) in *.
  split; nra.
Qed.

(** One goal per command of an explicit list; only [arc] leaves one. *)
Ltac each_cmd :=
  repeat first [apply Forall_nil | apply Forall_cons];
  cbn [arc_ok radius_ok]; try exact I.

Lemma radius_ok_robot (w h t : R) : Forall radius_ok (drawRobot w h t).
Proof. unfold drawRobot. each_cmd; lra. Qed.

Lemma orbit_circle_ok (t : R) (i : nat) :
  Forall (arc_ok 512 512) (orbit_circle (512 / 2) (512 / 2) t i).
Proof.
  unfold orbit_circle. each_cmd.
  pose proof (COS_bound (t * 1.5 + INR i / 5 * PI * 2)) as [Hc1 Hc2].
  pose proof (SIN_bound (t * 1.5 + INR i / 5 * PI * 2)) as [Hs1 Hs2].
  repeat split; lra.
Qed.

Lemma hexagon_vertex_ok (w h size : R) (i : nat) :
  Forall (arc_ok w h) (hexagon_vertex size i).
Proof. unfold hexagon_vertex. destruct (Nat.eqb i 0); each_cmd. Qed.

Lemma particle_ok (t : R) (i : nat) :
  0 <= t -> Forall (arc_ok 512 512) (particle (512 / 2) (512 / 2) t i).
Proof.
  intros Ht. unfold particle. each_cmd.
  set (angle := INR i * 137.508 + t * (0.3 + INR (i mod 5) * 0.1)).
  pose proof (COS_bound angle) as [Hc1 Hc2].
  pose proof (SIN_bound angle) as [Hs1 Hs2].
  pose proof (SIN_bound (t * 3 + INR i)) as [Hz1 Hz2].
  assert (Hr : 0 <= js_rem (INR i * 3 + t * 40) 200 < 200).
  { apply js_rem_bounds; [pose proof (pos_INR i); nra | lra]. }
  set (m := js_rem (INR i * 3 + t * 40) 200) in *.
  set (c := cos angle) in *. set (sn := sin angle) in *.
  set (z := sin (t * 3 + INR i)) in *.
  repeat split; nra.
Qed.

(** X23. The particles and the orbiting circles stay on the canvas: for
    every elapsed time [t >= 0], each [arc] that [drawParticles] and
    [drawLogo] call on the 512 by 512 canvas has a radius that is not
    negative and a circle that lies inside the canvas. *)
Theorem arcs_stay_on_canvas (t : R) :
  0 <= t ->
  Forall (arc_ok 512 512) (drawParticles 512 512 t)
  /\ Forall (arc_ok 512 512) (drawLogo 512 512 t).
Proof.
  intros Ht. split.
  - unfold drawParticles.
    apply Forall_app; split; [each_cmd |].
    apply Forall_app; split; [| each_cmd].
    apply Forall_flat_map, Forall_forall. intros i _. now apply particle_ok.
  - unfold drawLogo.
    apply Forall_app; split; [each_cmd |].
    apply Forall_app; split.
    { apply Forall_flat_map, Forall_forall. intros i _. apply hexagon_vertex_ok. }
    apply Forall_app; split; [each_cmd |].
    apply Forall_flat_map, Forall_forall. intros i _. apply orbit_circle_ok.
Qed.

Lemma arcs_stay_on_canvas_witness :
  Forall (arc_ok 512 512) (drawParticles 512 512 1).
Proof. apply (arcs_stay_on_canvas 1). lra. Defined.

(** X24. No draw routine passes a negative radius to [arc], at any time
    (negative included) and for any canvas size, so [arc] never throws. *)
Theorem arc_radius_never_negative (d : App.DrawFn) (w h t : R) :
  Forall radius_ok (draw_commands d w h t).
Proof.
  destruct d; cbn [draw_commands].
  - apply radius_ok_robot.
  - unfold drawLogo.
    apply Forall_app; split; [each_cmd |].
    apply Forall_app; split.
    { apply Forall_flat_map, Forall_forall. intros i _.
      unfold hexagon_vertex. destruct (Nat.eqb i 0); each_cmd. }
    apply Forall_app; split; [each_cmd |].
    apply Forall_flat_map, Forall_forall. intros i _.
    unfold orbit_circle. each_cmd. lra.
  - unfold drawParticles.
    apply Forall_app; split; [each_cmd |].
    apply Forall_app; split; [| each_cmd].
    apply Forall_flat_map, Forall_forall. intros i _.
    unfold particle. each_cmd.
    pose proof (SIN_bound (t * 3 + INR i)) as [Hz1 Hz2]. lra.
  - each_cmd.
Qed.

(** ** The text of the logo *)

(** Rotating by an angle and then by its opposite changes nothing. *)
Lemma rotate_back (angle angle' : R) (m : Matrix) :
  angle' = - angle -> rotate angle' (rotate angle m) = m.
Proof.
  intros ->. destruct m as [a b c d e f]. unfold rotate. cbn [ma mb mc md me mf].
  rewrite cos_neg, sin_neg.
  pose proof (sin2_cos2 angle) as H. unfold Rsqr in H.
  f_equal;
    match goal with
    | |- ?l = ?r =>
        replace l with (r * (sin angle * sin angle + cos angle * cos angle))
          by ring;
        rewrite H; ring
    end.
Qed.

(** X25. The text of the logo is drawn upright at the centre of the canvas:
    under the transform [drawLogo] was entered with, moved to [(w/2, h/2)]
    and nothing else, the rotation of the hexagon having been undone, at
    every time [t]. *)
Theorem logo_text_upright (w h t : R) (ctx : Context)
    (st : DrawingState) (text : string) (x y : R) :
  drawn ctx = [] ->
  In (st, FillText text x y) (drawn (exec (drawLogo w h t) ctx)) ->
  transform st = translate (w / 2) (h / 2) (transform (current ctx))
  /\ textAlign st = "center"%string /\ textBaseline st = "middle"%string.
Proof.
  intros Hlog Hin. destruct ctx as [cur stk lg]. cbn in Hlog. subst lg.
  cbn in Hin.
  repeat (destruct Hin as [Hin | Hin];
          [try discriminate Hin; injection Hin as <- _ _ _ |]);
    try contradiction.
  all: cbn [transform textAlign textBaseline with_transform current].
  all: split; [| split; reflexivity].
  all: apply rotate_back; lra.
Qed.

Lemma logo_text_upright_witness :
  exists st : DrawingState,
    In (st, FillText "PSM" 0 0) (drawn (exec (drawLogo 512 512 1) fresh))
    /\ transform st = translate (512 / 2) (512 / 2) identity.
Proof.
  eexists. split.
  - cbn. do 16 right. left. reflexivity.
  - match goal with
    | |- transform ?s = _ =>
        apply (logo_text_upright 512 512 1 fresh s "PSM" 0 0 eq_refl)
    end.
    cbn. do 16 right. left. reflexivity.
Defined.

(** ** The background and the key colour *)

Lemma green_fill_is_key : css_color "#00ff00" = Some (Shader.mkvec3 0 1 0).
Proof.
  cbn [css_color]. f_equal.
  assert (H0 : hex_value "0" = 0).
  { unfold hex_value. change (nat_of_ascii "0") with 48%nat.
    change ((48 <=? 57)%nat) with true. change (48 - 48)%nat with 0%nat.
    reflexivity. }
  assert (Hf : hex_value "f" = 15).
  { unfold hex_value. change (nat_of_ascii "f") with 102%nat.
    change ((102 <=? 57)%nat) with false. change ((102 <=? 70)%nat) with false.
    change (102 - 87)%nat with 15%nat. simpl. lra. }
  rewrite H0, Hf. f_equal; lra.
Qed.

(** X26. The three canvas routines start by filling the whole canvas with
    [#00ff00], which is the key colour of the shader; so for every setting
    of the sliders with similarity at least 0 and positive smoothness, a
    texel of that background comes out of the shader with alpha 0. *)
Theorem background_is_keyed_out (s : App.State) (u : Shader.Uniforms)
    (d : App.DrawFn) (w h t a0 : R) :
  is_procedural d = true ->
  App.shader_uniforms s = Some u ->
  0 <= Shader.similarity u -> 0 < Shader.smoothness u ->
  exists (rest : list Cmd) (c : Shader.vec3),
    draw_commands d w h t = SetFillStyle "#00ff00" :: FillRect 0 0 w h :: rest
    /\ css_color "#00ff00" = Some c
    /\ c = Shader.keyColor u
    /\ Shader.out_a (Shader.main u (Shader.mkvec4 c a0)) = Some 0.
Proof.
  intros Hd Hu Hsim Hsmooth.
  assert (Hkey : Shader.keyColor u = Shader.mkvec3 0 1 0).
  { unfold App.shader_uniforms in Hu.
    destruct (App.uniforms_similarity s); [| discriminate].
    destruct (App.uniforms_smoothness s); [| discriminate].
    injection Hu as <-. reflexivity. }
  assert (Halpha : Shader.out_a
            (Shader.main u (Shader.mkvec4 (Shader.mkvec3 0 1 0) a0)) = Some 0).
  { rewrite ShaderProofs.main_alpha by lra.
    rewrite ShaderProofs.clamp_low.
    - unfold Shader.spec_pow15. now rewrite Rmult_0_l.
    - unfold Shader.baseMask.
      rewrite ShaderProofs.chromaDistance_key by (now rewrite Hkey).
      apply ShaderExtras.quotient_nonpos; lra. }
  destruct d; try discriminate Hd;
    eexists; exists (Shader.mkvec3 0 1 0);
    (split; [reflexivity |]);
    (split; [apply green_fill_is_key |]);
    (split; [now rewrite Hkey | exact Halpha]).
Qed.

Lemma background_is_keyed_out_witness :
  exists (rest : list Cmd) (c : Shader.vec3),
    draw_commands App.drawLogo 512 512 0
    = SetFillStyle "#00ff00" :: FillRect 0 0 512 512 :: rest
    /\ css_color "#00ff00" = Some c
    /\ c = Shader.keyColor Shader.app_uniforms
    /\ Shader.out_a (Shader.main Shader.app_uniforms (Shader.mkvec4 c 1))
       = Some 0.
Proof.
  apply (background_is_keyed_out App.initial Shader.app_uniforms App.drawLogo);
    [reflexivity | reflexivity | cbn; lra | cbn; lra].
Defined.

End CanvasProofs.

(** * Properties of the video variant *)

Module VideoPageProofs.

Import VideoPage.
Local Open Scope string_scope.

Lemma run_snoc (s : State) (es : list Event) (e : Event) :
  run s (es ++ [e]) = step (run s es) e.
Proof. unfold run. now rewrite fold_left_app. Qed.

(** X27. In the video variant, after any sequence of clicks and slider
    moves, [playing] is set exactly when the play button was pressed an
    odd number of times, the button's label (once written) says Pause
    exactly when [playing] is set, the video is paused whenever [playing]
    is clear, and, when no [play()] was refused, the video plays exactly
    when [playing] is set. *)
Theorem play_button_follows_flag (video : DemoVideo) (es : list Event) :
  let s := run (init video) es in
  playing s = Nat.odd (List.length (filter is_play es))
  /\ match play_btn_text s with
     | Some label => label = play_label s
     | None => filter is_play es = []
     end
  /\ (playing s = false -> videoEl_paused s = true)
  /\ (never_refused es = true -> videoEl_paused s = negb (playing s)).
Proof.
  induction es as [| e es IH] using rev_ind.
  - cbn. repeat split; reflexivity.
  - cbn zeta in *. rewrite run_snoc, filter_app, length_app.
    unfold never_refused in *. rewrite forallb_app.
    destruct IH as (Hp & Hl & Hpaused & Hok).
    set (s := run (init video) es) in *.
    destruct e as [can_play | | v | v]; cbn [is_play filter List.length step forallb].
    + (* the play button *)
      rewrite Nat.add_1_r, Nat.odd_succ, <- Nat.negb_odd, <- Hp.
      unfold togglePlay, play_label.
      destruct (playing s) eqn:Eplay; cbn.
      * repeat split; auto.
      * repeat split; try discriminate.
        rewrite andb_true_r. intros H.
        apply andb_true_iff in H. destruct H as [_ H].
        destruct can_play; [reflexivity | discriminate].
    + rewrite Nat.add_0_r, app_nil_r, andb_true_r.
      unfold toggleMute, play_label in *. cbn. repeat split; assumption.
    + rewrite Nat.add_0_r, app_nil_r, andb_true_r.
      unfold similarity_oninput, play_label in *.
      destruct (videoMesh_material s); cbn; repeat split; assumption.
    + rewrite Nat.add_0_r, app_nil_r, andb_true_r.
      unfold smoothness_oninput, play_label in *.
      destruct (videoMesh_material s); cbn; repeat split; assumption.
Qed.

Lemma play_button_follows_flag_witness :
  never_refused [ClickPlay true; ClickMute; ClickPlay true; ClickPlay true] = true
  /\ videoEl_paused
       (run (init plain_video)
            [ClickPlay true; ClickMute; ClickPlay true; ClickPlay true])
     = false.
Proof.
  split; [reflexivity |].
  destruct (play_button_follows_flag plain_video
              [ClickPlay true; ClickMute; ClickPlay true; ClickPlay true])
    as (Hp & _ & _ & Hok).
  rewrite (Hok eq_refl), Hp. reflexivity.
Defined.

(** X28. In the video variant, after any sequence of clicks and slider
    moves, the video is muted exactly when the mute button was pressed an
    even number of times (it starts muted), and the button's icon, once
    written, is the muted one exactly when the video is muted. *)
Theorem mute_button_follows_video (video : DemoVideo) (es : list Event) :
  let s := run (init video) es in
  videoEl_muted s = Nat.even (List.length (filter is_mute es))
  /\ match mute_btn_text s with
     | Some label => label = mute_label s
     | None => filter is_mute es = []
     end.
Proof.
  induction es as [| e es IH] using rev_ind.
  - cbn. split; reflexivity.
  - cbn zeta in *. rewrite run_snoc, filter_app, length_app.
    destruct IH as (Hm & Hl).
    set (s := run (init video) es) in *.
    destruct e as [can_play | | v | v]; cbn [is_mute filter List.length step].
    + rewrite Nat.add_0_r, app_nil_r.
      unfold togglePlay, mute_label in *.
      destruct (playing s); cbn; split; assumption.
    + rewrite Nat.add_1_r, Nat.even_succ, <- Nat.negb_even, <- Hm.
      unfold toggleMute, mute_label. cbn. split; reflexivity.
    + rewrite Nat.add_0_r, app_nil_r.
      unfold similarity_oninput, mute_label in *.
      destruct (videoMesh_material s); cbn; split; assumption.
    + rewrite Nat.add_0_r, app_nil_r.
      unfold smoothness_oninput, mute_label in *.
      destruct (videoMesh_material s); cbn; split; assumption.
Qed.

Lemma material_kind (video : DemoVideo) (es : list Event) :
  let s := run (init video) es in
  if useChromaKey video
  then exists sim smooth,
         videoMesh_material s
         = ShaderMaterial
             (mkChromaUniforms (video_keyColor video) sim smooth 0.1%R)
  else videoMesh_material s = MeshBasicMaterial.
Proof.
  induction es as [| e es IH] using rev_ind.
  - cbn. destruct (useChromaKey video); [eauto | reflexivity].
  - cbn zeta in *. rewrite run_snoc.
    set (s := run (init video) es) in *.
    destruct (useChromaKey video).
    + destruct IH as (sim & smooth & Hm).
      destruct e; cbn [step];
        unfold togglePlay, toggleMute, similarity_oninput, smoothness_oninput;
        try destruct (playing s); rewrite ?Hm; cbn; eauto.
    + destruct e; cbn [step];
        unfold togglePlay, toggleMute, similarity_oninput, smoothness_oninput;
        try destruct (playing s); rewrite ?IH; cbn; auto.
Qed.

(** X29. In the video variant the two sliders act only on a chroma-key
    material.  When the configured video does not ask for the chroma key
    (as the one shipped does not), the billboard keeps its basic material
    and a slider move changes nothing at all; when it does, the material
    keeps the configured key colour and spill 0.1 and a slider move
    replaces exactly the uniform of that slider. *)
Theorem sliders_need_chroma_material (video : DemoVideo) (es : list Event)
    (v : option R) :
  let s := run (init video) es in
  (useChromaKey video = false ->
     videoMesh_material s = MeshBasicMaterial
     /\ step s (InputSimilarity v) = s
     /\ step s (InputSmoothness v) = s)
  /\ (useChromaKey video = true ->
      exists sim smooth,
        videoMesh_material s
        = ShaderMaterial
            (mkChromaUniforms (video_keyColor video) sim smooth 0.1%R)
        /\ videoMesh_material (step s (InputSimilarity v))
           = ShaderMaterial
               (mkChromaUniforms (video_keyColor video) v smooth 0.1%R)
        /\ videoMesh_material (step s (InputSmoothness v))
           = ShaderMaterial
               (mkChromaUniforms (video_keyColor video) sim v 0.1%R))
  /\ Forall (fun video => useChromaKey video = false) DEMO_VIDEOS.
Proof.
  intros s. pose proof (material_kind video es) as Hk. cbn zeta in Hk. fold s in Hk.
  split; [| split].
  - intros Hc. rewrite Hc in Hk.
    cbn [step]. unfold similarity_oninput, smoothness_oninput. rewrite Hk.
    repeat split.
  - intros Hc. rewrite Hc in Hk. destruct Hk as (sim & smooth & Hm).
    exists sim, smooth. cbn [step].
    unfold similarity_oninput, smoothness_oninput. rewrite Hm. cbn.
    repeat split.
  - repeat constructor.
Qed.

Lemma sliders_need_chroma_material_witness :
  step (run (init plain_video) [ClickPlay true]) (InputSimilarity (Some 0.5%R))
  = run (init plain_video) [ClickPlay true]
  /\ videoMesh_material
       (step (run (init keyed_video) [ClickPlay true])
             (InputSimilarity (Some 0.5%R)))
     = ShaderMaterial
         (mkChromaUniforms (Shader.mkvec3 0 1 0) (Some 0.5%R) (Some 0.08%R)
                           0.1%R).
Proof.
  split.
  - now destruct (sliders_need_chroma_material plain_video [ClickPlay true]
                    (Some 0.5%R)) as [H _]; destruct (H eq_refl) as (_ & H1 & _).
  - reflexivity.
Defined.

End VideoPageProofs.
